(** * tar-diff: the delta container format, its writer and its applier

    A shallow embedding of [pkg/tar-diff] (the [deltaWriter] methods and
    [ApplyDelta]) together with the properties the specification states
    about them.

    Conventions of the embedding:
    - a byte is a [Z] in [0, 256); [uint8] and [uint64] arithmetic is
      written with its wrap-around ([mod 256], [mod 2^64]);
    - a Go [error] result is an [option error] ([None] is [nil]);
    - readers are finite byte lists with a terminal condition; the zstd
      codec is a parameter of the development. *)

From Stdlib Require Import ZArith Zbitwise List Bool Lia String Ascii.
Import ListNotations.

#[local] Open Scope Z_scope.

(** ** Bytes, machine integers, errors *)

Definition byte := Z.

Definition is_byte (b : Z) : Prop := 0 <= b < 256.

Definition uint8 (x : Z) : Z := x mod 256.
Definition uint64 (x : Z) : Z := x mod 2 ^ 64.

(** [int64(size)] for a [uint64] value: two's complement reinterpretation. *)
Definition int64 (x : Z) : Z := if x <? 2 ^ 63 then x else x - 2 ^ 64.

(** [len(s)] as an integer. *)
Definition len {A} (l : list A) : Z := Z.of_nat (List.length l).

Inductive error : Type :=
| EOF                                  (* io.EOF *)
| ErrUnexpectedEOF                     (* io.ErrUnexpectedEOF *)
| errOverflow                          (* binary: varint overflows 64 bits *)
| ErrInvalidDeltaFormat                (* "Invalid delta format" *)
| ErrNoCurrentFileCopy                 (* "No current file to copy from" *)
| ErrNoCurrentFileSeek                 (* "No current file to seek in" *)
| ErrUnexpectedOp (op : Z)             (* "Unexpected delta op %d" *)
| ErrOpen (path : string)              (* os.Open failed on path *)
| ErrSeek (offset : Z)                 (* File.Seek refused the offset *)
| ErrWrite                             (* a Write on an io.Writer failed *)
| ErrZstd (code : nat)                 (* an error of the zstd codec *)
| ErrInvalid                           (* os.ErrInvalid *)
| PanicMakeslice (size : Z)            (* panic: makeslice: len out of range *)
| PanicNilDeref.                       (* panic: nil pointer dereference *)

Definition error_eqb_EOF (e : error) : bool :=
  match e with EOF => true | _ => false end.

(** ** Operation tags and constants *)

Definition DeltaOpData : Z := 0.
Definition DeltaOpOpen : Z := 1.
Definition DeltaOpCopy : Z := 2.
Definition DeltaOpAddData : Z := 3.
Definition DeltaOpSeek : Z := 4.

Definition deltaDataChunkSize : Z := 4 * 1024 * 1024.

(** ['t','a','r','d','f','1','\n',0] *)
Definition deltaHeader : list byte := [116; 97; 114; 100; 102; 49; 10; 0].

(** ** Readers

    An [io.Reader] over an in-memory source: the bytes still to come and
    the condition reported once they are exhausted ([None] is a clean
    [io.EOF], [Some e] an error of the underlying source). *)

Record reader : Type := mkReader { rbytes : list byte; rerr : option error }.

Definition rend (r : reader) : error :=
  match rerr r with Some e => e | None => EOF end.

(** [ReadByte] of [bufio.Reader]. *)
Definition ReadByte (r : reader) : error + (byte * reader) :=
  match rbytes r with
  | b :: t => inr (b, mkReader t (rerr r))
  | [] => inl (rend r)
  end.

(** [io.ReadFull(r, buf)] with [len(buf) = n]: all [n] bytes or an error;
    a short read is [io.EOF] when nothing was read and
    [io.ErrUnexpectedEOF] otherwise, an error of the source is passed on. *)
Definition ReadFull (r : reader) (n : Z) : error + (list byte * reader) :=
  if n <=? len (rbytes r) then
    inr (firstn (Z.to_nat n) (rbytes r),
         mkReader (skipn (Z.to_nat n) (rbytes r)) (rerr r))
  else
    inl (match rerr r with
         | Some e => e
         | None => match rbytes r with [] => EOF | _ => ErrUnexpectedEOF end
         end).

(** ** Unsigned varints ([encoding/binary]) *)

Definition MaxVarintLen64 : nat := 10.

(** [binary.PutUvarint]: the loop [for x >= 0x80] emits [byte(x) | 0x80]
    and shifts; a [uint64] leaves it after at most nine rounds. *)
Fixpoint PutUvarint_loop (rounds : nat) (x : Z) : list byte :=
  match rounds with
  | O => [uint8 x]
  | S k =>
      if 128 <=? x
      then Z.lor (uint8 x) 128 :: PutUvarint_loop k (Z.shiftr x 7)
      else [uint8 x]
  end.

Definition PutUvarint (x : Z) : list byte := PutUvarint_loop 9 x.

(** [binary.ReadUvarint]: [n] is the number of iterations left of the
    [for i := 0; i < MaxVarintLen64; i++] loop. *)
Fixpoint ReadUvarint_loop (n : nat) (i x s : Z) (r : reader)
  : error + (Z * reader) :=
  match n with
  | O => inl errOverflow
  | S n' =>
      match ReadByte r with
      | inl err =>
          inl (if (0 <? i) && error_eqb_EOF err then ErrUnexpectedEOF else err)
      | inr (b, r') =>
          if b <? 128 then
            if (i =? 9) && (1 <? b) then inl errOverflow
            else inr (Z.lor x (uint64 (Z.shiftl b s)), r')
          else
            ReadUvarint_loop n' (i + 1)
              (Z.lor x (uint64 (Z.shiftl (Z.land b 127) s))) (s + 7) r'
      end
  end.

Definition ReadUvarint (r : reader) : error + (Z * reader) :=
  ReadUvarint_loop MaxVarintLen64 0 0 0 r.

(** ** Strings and byte slices

    [[]byte(s)] and [string(b)]: a Go string is its bytes. *)

Definition bytes_of_string (s : string) : list byte :=
  map (fun a => Z.of_N (N_of_ascii a)) (list_ascii_of_string s).

Definition string_of_bytes (b : list byte) : string :=
  string_of_list_ascii (map (fun x => ascii_of_N (Z.to_N x)) b).

(** ** Writers

    An [io.Writer] over an in-memory sink: the bytes accepted so far and
    the number of bytes it still accepts before [Write] reports an error
    ([None]: no limit).  A [Write] that does not fit is a short write. *)

Record Writer : Type := mkWriter { wbytes : list byte; wroom : option Z }.

Definition Write (w : Writer) (p : list byte) : Writer * option error :=
  match wroom w with
  | None => (mkWriter (wbytes w ++ p) None, None)
  | Some room =>
      if len p <=? room
      then (mkWriter (wbytes w ++ p) (Some (room - len p)), None)
      else (mkWriter (wbytes w ++ firstn (Z.to_nat room) p) (Some 0),
            Some ErrWrite)
  end.

(** ** The zstd codec

    The compressor is outside the repository; the development is
    parametric in it.  [zCompress level p] is the frame a closed encoder
    has produced for the plain bytes [p]; [zWrite_err plain p] is the
    error, if any, that [Encoder.Write] reports for the chunk [p] after
    [plain] was accepted; [zNewWriter_err level] that of [zstd.NewWriter];
    [zNewReader src] is the reader [zstd.NewReader] builds over [src]:
    the decoded bytes and the condition met at their end. *)

Record codec : Type := mkCodec {
  zCompress : Z -> list byte -> list byte;
  zWrite_err : list byte -> list byte -> option error;
  zNewWriter_err : Z -> option error;
  zNewReader : reader -> error + reader
}.

(** A codec that never reports an error and decodes what it encoded. *)
Record codec_sound (z : codec) : Prop := {
  zs_write : forall plain p, zWrite_err z plain p = None;
  zs_new : forall level, zNewWriter_err z level = None;
  zs_roundtrip : forall level p e,
      zNewReader z (mkReader (zCompress z level p) e) = inr (mkReader p e)
}.

(** The plain bytes a [*zstd.Encoder] has accepted, and its level. *)
Record Encoder : Type := mkEncoder { e_level : Z; e_plain : list byte }.

(** ** The delta writer *)

Record deltaWriter : Type := mkDeltaWriter {
  writer : option Encoder;      (* nil once closed *)
  buffer : list byte;
  currentFile : string;
  currentPos : Z                (* uint64 *)
}.

Definition set_writer (d : deltaWriter) (w : option Encoder) : deltaWriter :=
  mkDeltaWriter w (buffer d) (currentFile d) (currentPos d).
Definition set_buffer (d : deltaWriter) (b : list byte) : deltaWriter :=
  mkDeltaWriter (writer d) b (currentFile d) (currentPos d).
Definition set_currentFile (d : deltaWriter) (f : string) : deltaWriter :=
  mkDeltaWriter (writer d) (buffer d) f (currentPos d).
Definition set_currentPos (d : deltaWriter) (p : Z) : deltaWriter :=
  mkDeltaWriter (writer d) (buffer d) (currentFile d) p.

(** A method of [*deltaWriter] returning [error]. *)
Definition verb : Type := deltaWriter -> deltaWriter * option error.

(** [err := a(); if err != nil { return err }; b()] *)
Definition andThen (a b : verb) : verb :=
  fun d => match a d with
           | (d1, Some e) => (d1, Some e)
           | (d1, None) => b d1
           end.

Definition done : verb := fun d => (d, None).

Declare Scope verb_scope.
Delimit Scope verb_scope with verb.
Notation "a ;; b" := (andThen a b)
  (at level 61, right associativity) : verb_scope.

Section Writer.

Variable zstd : codec.

(** [d.writer.Write(p)]; the call panics on the nil encoder of a closed
    writer. *)
Definition writer_Write (p : list byte) : verb :=
  fun d => match writer d with
           | None => (d, Some PanicNilDeref)
           | Some e =>
               match zWrite_err zstd (e_plain e) p with
               | Some err => (d, Some err)
               | None =>
                   (set_writer d (Some (mkEncoder (e_level e) (e_plain e ++ p))),
                    None)
               end
           end.

(** [newDeltaWriter]: the header goes to the underlying writer, the
    encoder is created over it. *)
Definition newDeltaWriter (w : Writer) (compressionLevel : Z)
  : Writer * (error + deltaWriter) :=
  match Write w deltaHeader with
  | (w1, Some err) => (w1, inl err)
  | (w1, None) =>
      match zNewWriter_err zstd compressionLevel with
      | Some err => (w1, inl err)
      | None =>
          (w1, inr (mkDeltaWriter (Some (mkEncoder compressionLevel []))
                                  [] EmptyString 0))
      end
  end.

(** [writeOp]: tag byte and varint in one [Write], the payload, when
    there is one, in a second. *)
Definition writeOp (op : Z) (size : Z) (data : option (list byte)) : verb :=
  (writer_Write (uint8 op :: PutUvarint size) ;;
   match data with
   | Some p => writer_Write p
   | None => done
   end)%verb.

Definition FlushBuffer : verb :=
  fun d =>
    if len (buffer d) =? 0 then (d, None)
    else
      let (d1, err) :=
        writeOp DeltaOpData (uint64 (len (buffer d))) (Some (buffer d)) d in
      (set_buffer d1 [], err).

(** [Close]: the encoder, when there is one, writes its frame to the
    underlying writer [w] and is dropped. *)
Definition Close (d : deltaWriter) (w : Writer)
  : deltaWriter * Writer * option error :=
  match writer d with
  | None => (d, w, None)
  | Some e =>
      let (w1, err) := Write w (zCompress zstd (e_level e) (e_plain e)) in
      (set_writer d None, w1, err)
  end.

Definition WriteContent (data : list byte) : verb :=
  fun d =>
    let d1 := set_buffer d (buffer d ++ data) in
    if deltaDataChunkSize <=? len (buffer d1) then FlushBuffer d1
    else (d1, None).

(** Switches to new file if needed and ensures we're at the start of it *)
Definition SetCurrentFile (filename : string) : verb :=
  fun d =>
    if negb (String.eqb (currentFile d) filename) then
      let nameBytes := bytes_of_string filename in
      (FlushBuffer ;;
       writeOp DeltaOpOpen (uint64 (len nameBytes)) (Some nameBytes) ;;
       (fun d2 => (set_currentPos (set_currentFile d2 filename) 0, None)))%verb d
    else (d, None).

Definition Seek (pos : Z) : verb :=
  fun d =>
    if currentPos d =? pos then (d, None)
    else
      (FlushBuffer ;;
       writeOp DeltaOpSeek pos None ;;
       (fun d2 => (set_currentPos d2 pos, None)))%verb d.

Definition SeekForward (pos : Z) : verb :=
  fun d =>
    let d1 := set_currentPos d (uint64 (currentPos d + pos)) in
    (FlushBuffer ;;
     (fun d2 => writeOp DeltaOpSeek (currentPos d2) None d2))%verb d1.

Definition CopyFile (size : Z) : verb :=
  (FlushBuffer ;;
   writeOp DeltaOpCopy size None ;;
   (fun d2 => (set_currentPos d2 (uint64 (currentPos d2 + size)), None)))%verb.

Definition WriteAddContent (data : list byte) : verb :=
  (FlushBuffer ;;
   writeOp DeltaOpAddData (uint64 (len data)) (Some data) ;;
   (fun d2 =>
      (set_currentPos d2 (uint64 (currentPos d2 + uint64 (len data))), None))
  )%verb.

Definition CopyFileAt (offset size : Z) : verb :=
  (Seek offset ;; CopyFile size)%verb.

Definition WriteOldFile (filename : string) (size : Z) : verb :=
  (SetCurrentFile filename ;; Seek 0 ;; CopyFile size)%verb.

(** [Write]: the [io.Writer] face of the delta writer. *)
Definition deltaWriter_Write (data : list byte) (d : deltaWriter)
  : deltaWriter * (Z * option error) :=
  let n := len data in
  let (d1, err) := WriteContent data d in
  (d1, (n, err)).

End Writer.

(** ** The process: open file descriptors and observable calls *)

Inductive event : Type :=
| EvZstdNewReader                 (* zstd.NewReader was called *)
| EvZstdClose                     (* the zstd decoder was closed *)
| EvOpen (path : string)          (* os.Open(path) was called *)
| EvClose (fd : nat).             (* the file with descriptor fd was closed *)

Record process : Type := mkProcess {
  nextfd : nat;                   (* the next descriptor os.Open hands out *)
  openfds : list nat;             (* descriptors open now *)
  trace : list event              (* calls so far, oldest first *)
}.

Definition log (ev : event) (p : process) : process :=
  mkProcess (nextfd p) (openfds p) (trace p ++ [ev]).

(** An [*os.File] open for reading: its descriptor, the content of the
    file and the read cursor. *)
Record File : Type := mkFile { f_fd : nat; f_data : list byte; f_pos : Z }.

(** The old-file tree as [os.Open] sees it. *)
Definition filesystem : Type := string -> option (list byte).

Definition os_Open (fs : filesystem) (path : string) (p : process)
  : process * (error + File) :=
  let p1 := log (EvOpen path) p in
  match fs path with
  | Some data =>
      (mkProcess (S (nextfd p1)) (nextfd p1 :: openfds p1) (trace p1),
       inr (mkFile (nextfd p1) data 0))
  | None => (p1, inl (ErrOpen path))
  end.

(** [f.Close()]; on a nil [*os.File] it returns [os.ErrInvalid] and does
    nothing. *)
Definition File_Close (f : option File) (p : process)
  : process * option error :=
  match f with
  | None => (p, Some ErrInvalid)
  | Some f =>
      (mkProcess (nextfd p) (remove Nat.eq_dec (f_fd f) (openfds p))
                 (trace p ++ [EvClose (f_fd f)]),
       None)
  end.

(** [f.Seek(offset, 0)] *)
Definition File_Seek (f : File) (offset : Z) : error + File :=
  if offset <? 0 then inl (ErrSeek offset)
  else inr (mkFile (f_fd f) (f_data f) offset).

(** What is left to read of a file from its cursor. *)
Definition File_reader (f : File) : reader :=
  mkReader (skipn (Z.to_nat (f_pos f)) (f_data f)) None.

Definition File_advance (f : File) (k : Z) : File :=
  mkFile (f_fd f) (f_data f) (f_pos f + k).

(** [io.ReadFull(f, buf)] with [len(buf) = n] *)
Definition File_ReadFull (f : File) (n : Z) : error + (list byte * File) :=
  match ReadFull (File_reader f) n with
  | inl err => inl err
  | inr (b, _) => inr (b, File_advance f n)
  end.

Definition advance (r : reader) (k : Z) : reader :=
  mkReader (skipn (Z.to_nat k) (rbytes r)) (rerr r).

(** [io.CopyN(dst, src, n)]: the updated sink, the number of bytes taken
    from [src], and the error.  With [n <= 0] nothing is copied and no
    error is reported; a source that ends early gives [io.EOF] (or its
    own error) after what it had was written. *)
Definition CopyN (dst : Writer) (src : reader) (n : Z)
  : Writer * Z * option error :=
  if n <=? 0 then (dst, 0, None)
  else
    let k := Z.min n (len (rbytes src)) in
    match Write dst (firstn (Z.to_nat k) (rbytes src)) with
    | (dst1, Some e) => (dst1, k, Some e)
    | (dst1, None) =>
        if k <? n then (dst1, k, Some (rend src)) else (dst1, k, None)
    end.

(** [make([]byte, size)] panics beyond the largest allocation of the
    runtime (2^48 bytes with 48-bit heap addresses). *)
Definition maxAlloc : Z := 2 ^ 48.

(** [addBytes[i] = addBytes[i] + addBytes2[i]] for every index, in
    [uint8]. *)
Definition add_bytes (addBytes addBytes2 : list byte) : list byte :=
  map (fun xy => uint8 (fst xy + snd xy)) (combine addBytes addBytes2).

Definition bytes_Equal (a b : list byte) : bool :=
  if list_eq_dec Z.eq_dec a b then true else false.

(** [maybeClose]: the error of [Close] is dropped. *)
Definition maybeClose (closer : option File) (p : process) : process :=
  fst (File_Close closer p).

(** ** The applier *)

(** The variables of the loop of [ApplyDelta]: the buffered reader [r]
    over the decoded stream, [currentFile], the sink [dst], and the
    process. *)
Record applyState : Type := mkApply {
  a_r : reader;
  a_currentFile : option File;
  a_dst : Writer;
  a_proc : process
}.

(** One pass through the body of the loop: go round again, [break], or
    [return err]. *)
Inductive step : Type :=
| Continue (st : applyState)
| Break (st : applyState)
| Return (st : applyState) (err : error).

(** The variables as a pass leaves them. *)
Definition step_state (s : step) : applyState :=
  match s with
  | Continue st | Break st | Return st _ => st
  end.

(** The descriptor of the current file is open. *)
Definition current_is_open (st : applyState) : Prop :=
  forall f, a_currentFile st = Some f -> In (f_fd f) (openfds (a_proc st)).

Record applyResult : Type := mkResult {
  res_err : option error;
  res_dst : Writer;
  res_proc : process
}.

Section Apply.

Variable zstd : codec.
Variable fs : filesystem.
Variable extractedDir : string.

Definition applyStep (st : applyState) : step :=
  match ReadByte (a_r st) with
  | inl err => if error_eqb_EOF err then Break st else Return st err
  | inr (op, r1) =>
    match ReadUvarint r1 with
    | inl err => Return st err
    | inr (size, r2) =>
      if op =? DeltaOpData then
        let '(dst1, k, err) := CopyN (a_dst st) r2 (int64 size) in
        let st1 := mkApply (advance r2 k) (a_currentFile st) dst1 (a_proc st) in
        match err with
        | Some e => Return st1 e
        | None => Continue st1
        end
      else if op =? DeltaOpOpen then
        if maxAlloc <? size then Return st (PanicMakeslice size)
        else
          match ReadFull r2 size with
          | inl err => Return st err
          | inr (nameBytes, r3) =>
              let name := string_of_bytes nameBytes in
              let path := (extractedDir ++ "/" ++ name)%string in
              let proc1 :=
                match a_currentFile st with
                | Some f => fst (File_Close (Some f) (a_proc st))
                | None => a_proc st
                end in
              match os_Open fs path proc1 with
              | (proc2, inl err) => Return (mkApply r3 None (a_dst st) proc2) err
              | (proc2, inr f) => Continue (mkApply r3 (Some f) (a_dst st) proc2)
              end
          end
      else if op =? DeltaOpCopy then
        match a_currentFile st with
        | None => Return st ErrNoCurrentFileCopy
        | Some f =>
            let '(dst1, k, err) := CopyN (a_dst st) (File_reader f) (int64 size) in
            let st1 := mkApply r2 (Some (File_advance f k)) dst1 (a_proc st) in
            match err with
            | Some e => Return st1 e
            | None => Continue st1
            end
        end
      else if op =? DeltaOpAddData then
        match a_currentFile st with
        | None => Return st ErrNoCurrentFileCopy
        | Some f =>
            if maxAlloc <? size then Return st (PanicMakeslice size)
            else
              match ReadFull r2 size with
              | inl err => Return st err
              | inr (addBytes, r3) =>
                  match File_ReadFull f size with
                  | inl err => Return st err
                  | inr (addBytes2, f1) =>
                      match Write (a_dst st) (add_bytes addBytes addBytes2) with
                      | (dst1, Some e) =>
                          Return (mkApply r3 (Some f1) dst1 (a_proc st)) e
                      | (dst1, None) =>
                          Continue (mkApply r3 (Some f1) dst1 (a_proc st))
                      end
                  end
              end
        end
      else if op =? DeltaOpSeek then
        match a_currentFile st with
        | None => Return st ErrNoCurrentFileSeek
        | Some f =>
            match File_Seek f (int64 size) with
            | inl err => Return st err
            | inr f1 => Continue (mkApply r2 (Some f1) (a_dst st) (a_proc st))
            end
        end
      else Return st (ErrUnexpectedOp op)
    end
  end.

(** The [for] loop; [fuel] bounds the number of passes. *)
Fixpoint applyLoop (fuel : nat) (st : applyState)
  : option (applyState * option error) :=
  match fuel with
  | O => None
  | S k =>
      match applyStep st with
      | Continue st1 => applyLoop k st1
      | Break st1 => Some (st1, None)
      | Return st1 e => Some (st1, Some e)
      end
  end.

(** Every pass takes at least the tag byte, so one pass more than there
    are decoded bytes is enough (lemma [applyLoop_enough] below). *)
Definition applyLoop_run (st : applyState) : applyState * option error :=
  match applyLoop (S (List.length (rbytes (a_r st)))) st with
  | Some res => res
  | None => (st, None)
  end.

Definition ApplyDelta (delta : reader) (dst : Writer) (proc : process)
  : applyResult :=
  match ReadFull delta (len deltaHeader) with
  | inl err => mkResult (Some err) dst proc
  | inr (buf, delta1) =>
      if negb (bytes_Equal buf deltaHeader)
      then mkResult (Some ErrInvalidDeltaFormat) dst proc
      else
        match zNewReader zstd delta1 with
        | inl err => mkResult (Some err) dst (log EvZstdNewReader proc)
        | inr r =>
            let proc1 := log EvZstdNewReader proc in
            (* var currentFile *os.File *)
            let currentFile : option File := None in
            (* defer maybeClose(currentFile): the argument of a deferred
               call is evaluated when the defer statement runs *)
            let deferred := currentFile in
            let (st, err) := applyLoop_run (mkApply r currentFile dst proc1) in
            let proc2 := maybeClose deferred (a_proc st) in
            (* defer decoder.Close() *)
            mkResult err (a_dst st) (log EvZstdClose proc2)
        end
  end.

End Apply.

(** ** The wire form of operations

    One operation is a tag byte, an unsigned varint and, for Data, Open
    and AddData, a payload of that many bytes. *)

Definition op_bytes (op size : Z) (payload : list byte) : list byte :=
  uint8 op :: PutUvarint size ++ payload.

Definition data_op (payload : list byte) : list byte :=
  op_bytes DeltaOpData (len payload) payload.

(** What flushing a pending buffer [b] puts on the wire. *)
Definition flush_bytes (b : list byte) : list byte :=
  if len b =? 0 then [] else op_bytes DeltaOpData (uint64 (len b)) b.

(** A writer with its encoder open. *)
Definition open_writer (level : Z) (plain buf : list byte)
           (file : string) (pos : Z) : deltaWriter :=
  mkDeltaWriter (Some (mkEncoder level plain)) buf file pos.

(** [WriteContent] called on each slice in turn. *)
Fixpoint WriteContents (zstd : codec) (ws : list (list byte)) : verb :=
  match ws with
  | [] => done
  | w :: ws' => (WriteContent zstd w ;; WriteContents zstd ws')%verb
  end.

(** ** Plans

    The calls a planner makes on the writer, and, following the
    specification's description of each verb, the byte stream a sequence
    of calls stands for against an old-file tree.  An add-delta call is
    given by the new content of its region; the delta bytes handed to the
    writer are [new - old (mod 256)] against the old bytes at the tracked
    position. *)

Inductive call : Type :=
| WriteLiteral (data : list byte)
| SetFile (name : string)
| SeekTo (pos : Z)
| SeekBy (delta : Z)
| Copy (size : Z)
| CopyAt (offset size : Z)
| OldFile (name : string) (size : Z)
| AddDelta (new : list byte).

Record planState : Type := mkPlan {
  pl_file : option string;      (* the current old file, once one is set *)
  pl_pos : Z;                   (* the position in it *)
  pl_out : list byte            (* the bytes described so far *)
}.

Definition plan0 : planState := mkPlan None 0 [].

Definition delta_bytes (new old : list byte) : list byte :=
  map (fun no => (fst no - snd no) mod 256) (combine new old).

Definition is_byteb (b : Z) : bool := (0 <=? b) && (b <? 256).

Section Plan.

Variable fs : filesystem.
Variable extractedDir : string.

Definition old_file (name : string) : option (list byte) :=
  fs (extractedDir ++ "/" ++ name)%string.

(** The [n] bytes of the current file at the position, when the file
    has them. *)
Definition old_bytes (s : planState) (n : Z) : option (list byte) :=
  match pl_file s with
  | None => None
  | Some name =>
      match old_file name with
      | None => None
      | Some data =>
          if (0 <=? n) && (pl_pos s + n <=? len data) && (len data <? 2 ^ 63)
          then Some (firstn (Z.to_nat n) (skipn (Z.to_nat (pl_pos s)) data))
          else None
      end
  end.

Definition plan_set_file (s : planState) (name : string) : option planState :=
  match pl_file s with
  | Some cur =>
      if String.eqb cur name then Some s
      else
        match old_file name with
        | Some _ =>
            if negb (String.eqb name "") && (len (bytes_of_string name) <=? maxAlloc)
            then Some (mkPlan (Some name) 0 (pl_out s)) else None
        | None => None
        end
  | None =>
      match old_file name with
      | Some _ =>
          if negb (String.eqb name "") && (len (bytes_of_string name) <=? maxAlloc)
          then Some (mkPlan (Some name) 0 (pl_out s)) else None
      | None => None
      end
  end.

Definition plan_seek (s : planState) (pos : Z) : option planState :=
  match pl_file s with
  | None => None
  | Some _ =>
      if (0 <=? pos) && (pos <? 2 ^ 63)
      then Some (mkPlan (pl_file s) pos (pl_out s)) else None
  end.

Definition plan_copy (s : planState) (size : Z) : option planState :=
  match old_bytes s size with
  | None => None
  | Some old => Some (mkPlan (pl_file s) (pl_pos s + size) (pl_out s ++ old))
  end.

(** One call: the state after it, or [None] when the call is not valid
    at this point of the plan. *)
Definition plan_step (s : planState) (c : call) : option planState :=
  match c with
  | WriteLiteral data =>
      if len data <=? maxAlloc
      then Some (mkPlan (pl_file s) (pl_pos s) (pl_out s ++ data)) else None
  | SetFile name => plan_set_file s name
  | SeekTo pos => plan_seek s pos
  | SeekBy delta =>
      if 0 <=? delta then plan_seek s (pl_pos s + delta) else None
  | Copy size => plan_copy s size
  | CopyAt offset size =>
      match plan_seek s offset with
      | Some s1 => plan_copy s1 size
      | None => None
      end
  | OldFile name size =>
      match plan_set_file s name with
      | Some s1 =>
          match plan_seek s1 0 with
          | Some s2 => plan_copy s2 size
          | None => None
          end
      | None => None
      end
  | AddDelta new =>
      match old_bytes s (len new) with
      | None => None
      | Some _ =>
          if forallb is_byteb new && (len new <=? maxAlloc)
          then Some (mkPlan (pl_file s) (pl_pos s + len new) (pl_out s ++ new))
          else None
      end
  end.

(** A plan is valid when every call is; it then stands for [pl_out]. *)
Fixpoint plan_run (s : planState) (cs : list call) : option planState :=
  match cs with
  | [] => Some s
  | c :: cs' =>
      match plan_step s c with
      | Some s1 => plan_run s1 cs'
      | None => None
      end
  end.

Variable zstd : codec.

(** The writer call a planner makes for [c] at plan state [s]. *)
Definition encode_call (s : planState) (c : call) : verb :=
  match c with
  | WriteLiteral data => WriteContent zstd data
  | SetFile name => SetCurrentFile zstd name
  | SeekTo pos => Seek zstd pos
  | SeekBy delta => SeekForward zstd delta
  | Copy size => CopyFile zstd size
  | CopyAt offset size => CopyFileAt zstd offset size
  | OldFile name size => WriteOldFile zstd name size
  | AddDelta new =>
      match old_bytes s (len new) with
      | Some old => WriteAddContent zstd (delta_bytes new old)
      | None => WriteAddContent zstd new
      end
  end.

Fixpoint encode_plan (s : planState) (cs : list call) : verb :=
  match cs with
  | [] => done
  | c :: cs' =>
      (encode_call s c ;;
       encode_plan (match plan_step s c with Some s1 => s1 | None => s end) cs'
      )%verb
  end.

(** A whole pass: create the writer over [w], make the calls, close.
    [flush] says whether [FlushBuffer] is called before [Close]. *)
Definition encode (flush : bool) (cs : list call) (w : Writer) (level : Z)
  : Writer * option error :=
  match newDeltaWriter zstd w level with
  | (w1, inl err) => (w1, Some err)
  | (w1, inr d) =>
      match (encode_plan plan0 cs ;;
             if flush then FlushBuffer zstd else done)%verb d with
      | (_, Some err) => (w1, Some err)
      | (d1, None) =>
          let '(_, w2, err) := Close zstd d1 w1 in (w2, err)
      end
  end.

End Plan.

(** ** The writer and the applier side by side

    [decodes plain cur out proc]: applied from its start (no file open,
    sink [dst0], process [proc0]), the loop gets through the operations
    [plain] and is then about to read what follows them with
    [currentFile = cur], the sink holding [out] and the process [proc]. *)

Section Simulation.

Variable fs : filesystem.
Variable extractedDir : string.
Variable dst0 : Writer.
Variable proc0 : process.

Definition decodes (plain : list byte) (cur : option File)
           (out : list byte) (proc : process) : Prop :=
  forall rest te,
    applyLoop_run fs extractedDir
      (mkApply (mkReader (plain ++ rest) te) None dst0 proc0)
    = applyLoop_run fs extractedDir
        (mkApply (mkReader rest te) cur (mkWriter out None) proc).

(** The current file of the plan is the file the applier has open, at
    the same position. *)
Definition same_file (s : planState) (cur : option File) : Prop :=
  match pl_file s with
  | None => cur = None
  | Some name =>
      name <> ""%string
      /\ exists fd data,
           old_file fs extractedDir name = Some data
           /\ cur = Some (mkFile fd data (pl_pos s))
  end.

(** The writer [d] has described the plan state [s]: its tracked file
    and position are those of the plan, what it has put on the wire
    decodes to the bytes of the plan less the pending buffer. *)
Definition sim (s : planState) (d : deltaWriter) : Prop :=
  exists level plain buf cur out proc,
    d = open_writer level plain buf
                    (match pl_file s with Some n => n | None => ""%string end)
                    (pl_pos s)
    /\ len buf < deltaDataChunkSize
    /\ decodes plain cur out proc
    /\ out ++ buf = wbytes dst0 ++ pl_out s
    /\ same_file s cur
    /\ 0 <= pl_pos s < 2 ^ 63.

End Simulation.

(** ** Error classes

    The format errors of the specification: a bad magic header, an
    unrecognised operation tag, a truncated or overlong varint, a
    truncated payload. *)

Definition format_error (e : error) : Prop :=
  match e with
  | ErrInvalidDeltaFormat | ErrUnexpectedOp _
  | EOF | ErrUnexpectedEOF | errOverflow => True
  | _ => False
  end.

(** ** Path resolution

    How a file system without symbolic links resolves a path: the
    components between slashes, with [.] and empty components dropped and
    [..] stepping to the parent. *)

Fixpoint split_slash (s : string) (acc : string) : list string :=
  match s with
  | EmptyString => [acc]
  | String c s' =>
      if Ascii.eqb c "/" then acc :: split_slash s' EmptyString
      else split_slash s' (acc ++ String c EmptyString)%string
  end.

Fixpoint resolve (stack comps : list string) : list string :=
  match comps with
  | [] => stack
  | c :: cs =>
      if String.eqb c "" || String.eqb c "." then resolve stack cs
      else if String.eqb c ".." then resolve (removelast stack) cs
      else resolve (stack ++ [c]) cs
  end.

Definition clean_path (p : string) : list string :=
  resolve [] (split_slash p EmptyString).

Fixpoint is_prefix (a b : list string) : bool :=
  match a, b with
  | [], _ => true
  | x :: a', y :: b' => String.eqb x y && is_prefix a' b'
  | _ :: _, [] => false
  end.

(** [path] lies in the directory [root] or below it. *)
Definition inside (root path : string) : bool :=
  is_prefix (clean_path root) (clean_path path).

(** The file system holding the listed files, each under its absolute
    path. *)
Definition tree_fs (files : list (string * list byte)) : filesystem :=
  fun path =>
    match find (fun entry =>
                  if list_eq_dec string_dec (clean_path (fst entry))
                                 (clean_path path)
                  then true else false) files with
    | Some entry => Some (snd entry)
    | None => None
    end.

(** ** Concrete instances used in examples *)

(** The stored (uncompressed) codec: a frame is the plain bytes. *)
Definition zstd_stored : codec :=
  mkCodec (fun _ p => p) (fun _ _ => None) (fun _ => None) (fun r => inr r).

(** A sink without limit, empty at the start. *)
Definition sink : Writer := mkWriter [] None.

(** A process with no file open. *)
Definition process0 : process := mkProcess 3 [] [].

(** An old tree under [/srv/old], next to a file that is not part of it. *)
Definition example_tree : list (string * list byte) :=
  [("/srv/old/a.txt"%string, bytes_of_string "hello world");
   ("/srv/secret"%string, bytes_of_string "key")].

(** The plan of the end-to-end scenario: [a.txt] goes from "hello world"
    to "hello earth", and a new file holds "new". *)
Definition example_plan : list call :=
  [SetFile "a.txt"; Copy 6; AddDelta (bytes_of_string "earth");
   WriteLiteral (bytes_of_string "new")].

(** A slice of exactly [deltaDataChunkSize] zero bytes. *)
Definition chunk_of_zeros : list byte :=
  repeat 0 (Z.to_nat deltaDataChunkSize).

(** ** Descriptors

    Every descriptor open in [p] was handed out before [nextfd p]. *)
Definition fds_fresh (p : process) : Prop :=
  Forall (fun fd => (fd < nextfd p)%nat) (openfds p).

(** Since the process state [p0], the loop has at most the current file
    open, and nothing that was open in [p0] has been closed. *)
Definition one_handle (p0 : process) (st : applyState) : Prop :=
  (nextfd p0 <= nextfd (a_proc st))%nat
  /\ match a_currentFile st with
     | Some f =>
         (nextfd p0 <= f_fd f)%nat
         /\ openfds (a_proc st) = f_fd f :: openfds p0
     | None => openfds (a_proc st) = openfds p0
     end.

(** The process once the loop has closed its current file, if any, as
    an Open operation does before it opens the next. *)
Definition proc_after_close (st : applyState) : process :=
  match a_currentFile st with
  | Some f => fst (File_Close (Some f) (a_proc st))
  | None => a_proc st
  end.

(** The file [os.Open] returned, nil on an error. *)
Definition opened_file (res : error + File) : option File :=
  match res with
  | inr f => Some f
  | inl _ => None
  end.

(** The calls ApplyDelta may add to a trace, started in process state
    [p0] for the directory [dir]: the two calls on the decompressor, an
    open of a path made of [dir], a slash and a name, and a close of a
    descriptor handed out since [p0]. *)
Definition call_of_ApplyDelta (dir : string) (p0 : process) (ev : event)
  : Prop :=
  match ev with
  | EvZstdNewReader | EvZstdClose => True
  | EvOpen path => exists name, path = (dir ++ "/" ++ name)%string
  | EvClose fd => (nextfd p0 <= fd)%nat
  end.
(** * Properties *)

(** *** Round trip of the varint codec *)

Lemma uint64_small (x : Z) : 0 <= x < 2 ^ 64 -> uint64 x = x.
Proof. intros H. unfold uint64. apply Z.mod_small; lia. Qed.

Lemma varint_low7 (x : Z) :
  Z.land (Z.lor (uint8 x) 128) 127 = Z.land x 127.
Proof.
  unfold uint8. apply Z.bits_inj'. intros n Hn.
  rewrite !Z.land_spec, Z.lor_spec.
  change 256 with (2 ^ 8). change 127 with (Z.ones 7). change 128 with (2 ^ 7).
  destruct (Z.ltb_spec n 7) as [Hlt | Hge].
  - rewrite Z.ones_spec_low by lia.
    rewrite Z.mod_pow2_bits_low by lia.
    rewrite Z.pow2_bits_false by lia.
    now rewrite orb_false_r.
  - rewrite Z.ones_spec_high by lia. now rewrite !andb_false_r.
Qed.

Lemma varint_split (x s : Z) :
  0 <= s ->
  Z.lor (Z.shiftl (Z.land x 127) s) (Z.shiftl (Z.shiftr x 7) (s + 7))
  = Z.shiftl x s.
Proof.
  intros Hs. apply Z.bits_inj'. intros n Hn.
  rewrite Z.lor_spec, !Z.shiftl_spec by lia.
  destruct (Z.ltb_spec n s) as [Hlt | Hge].
  - rewrite !(Z.testbit_neg_r _ (n - s)) by lia.
    rewrite Z.testbit_neg_r by lia. reflexivity.
  - rewrite Z.land_spec. change 127 with (Z.ones 7).
    destruct (Z.ltb_spec (n - s) 7) as [Hlo | Hhi].
    + rewrite Z.ones_spec_low by lia.
      rewrite (Z.testbit_neg_r _ (n - (s + 7))) by lia.
      now rewrite andb_true_r, orb_false_r.
    + rewrite Z.ones_spec_high by lia.
      rewrite Z.shiftr_spec by lia.
      rewrite andb_false_r. simpl. f_equal. lia.
Qed.

Lemma lor_ge_r (a b : Z) : 0 <= a -> b <= Z.lor a b.
Proof.
  intros Ha. pose proof (Z.sub_lor_l_same_r a b) as E.
  assert (0 <= Z.land a (Z.lnot b)) by (apply Z.land_nonneg; lia).
  lia.
Qed.

Lemma lor_ge_l (a b : Z) : 0 <= b -> a <= Z.lor a b.
Proof. intros Hb. rewrite Z.lor_comm. now apply lor_ge_r. Qed.

Lemma ReadUvarint_loop_Put (k : nat) :
  forall i acc s x v rest e,
    i = 9 - Z.of_nat k -> s = 7 * i -> 0 <= i ->
    0 <= acc -> 0 <= x ->
    v = Z.lor acc (Z.shiftl x s) -> v < 2 ^ 64 ->
    ReadUvarint_loop (S k) i acc s (mkReader (PutUvarint_loop k x ++ rest) e)
    = inr (v, mkReader rest e).
Proof.
  induction k as [|k IH]; intros i acc s x v rest e Hi Hs Hi0 Hacc Hx Hv Hlt.
  - assert (i = 9) by lia. subst i. assert (s = 63) by lia. subst s.
    assert (Hsh : Z.shiftl x 63 <= v) by (subst v; now apply lor_ge_r).
    rewrite Z.shiftl_mul_pow2 in Hsh by lia.
    assert (x < 2) by (change (2 ^ 64) with (2 * 2 ^ 63) in Hlt; nia).
    cbn [PutUvarint_loop app ReadUvarint_loop ReadByte rbytes rerr].
    unfold uint8. rewrite Z.mod_small by lia.
    replace (x <? 128) with true by (symmetry; apply Z.ltb_lt; lia).
    replace (1 <? x) with false by (symmetry; apply Z.ltb_ge; lia).
    rewrite andb_false_r.
    rewrite uint64_small.
    + now subst v.
    + split; [apply Z.shiftl_nonneg; lia|].
      rewrite Z.shiftl_mul_pow2 by lia. lia.
  - assert (Hi8 : i <= 8) by lia.
    assert (Hs0 : 0 <= s) by lia.
    assert (Hsh : Z.shiftl x s <= v) by (subst v; now apply lor_ge_r).
    assert (Hshn : 0 <= Z.shiftl x s) by (apply Z.shiftl_nonneg; lia).
    cbn [PutUvarint_loop].
    destruct (Z.leb_spec 128 x) as [Hbig | Hsmall].
    + cbn [app ReadUvarint_loop ReadByte rbytes rerr].
      assert (Hb : 128 <= Z.lor (uint8 x) 128)
        by (apply lor_ge_r; unfold uint8; apply Z.mod_pos_bound; lia).
      replace (Z.lor (uint8 x) 128 <? 128) with false
        by (symmetry; apply Z.ltb_ge; lia).
      rewrite varint_low7.
      assert (Hlow : 0 <= Z.shiftl (Z.land x 127) s)
        by (apply Z.shiftl_nonneg, Z.land_nonneg; lia).
      assert (Hhigh : 0 <= Z.shiftl (Z.shiftr x 7) (s + 7))
        by (apply Z.shiftl_nonneg, Z.shiftr_nonneg; lia).
      assert (Hle : Z.shiftl (Z.land x 127) s <= Z.shiftl x s).
      { rewrite <- (varint_split x s) by lia. now apply lor_ge_l. }
      rewrite uint64_small by lia.
      apply IH; try lia.
      * assert (0 <= Z.lor acc (Z.shiftl (Z.land x 127) s))
          by (apply Z.lor_nonneg; lia).
        lia.
      * apply Z.shiftr_nonneg; lia.
      * rewrite <- Z.lor_assoc.
        subst v. f_equal.
        rewrite <- (varint_split x s) by lia. reflexivity.
    + cbn [app ReadUvarint_loop ReadByte rbytes rerr].
      unfold uint8. rewrite Z.mod_small by lia.
      replace (x <? 128) with true by (symmetry; apply Z.ltb_lt; lia).
      replace (i =? 9) with false by (symmetry; apply Z.eqb_neq; lia).
      cbn [andb].
      rewrite uint64_small by lia. now subst v.
Qed.

(** Reading back a varint written by [PutUvarint] gives the value and
    leaves the reader just after it. *)
Lemma ReadUvarint_PutUvarint (x : Z) (rest : list byte) (e : option error) :
  0 <= x < 2 ^ 64 ->
  ReadUvarint (mkReader (PutUvarint x ++ rest) e) = inr (x, mkReader rest e).
Proof.
  intros Hx. unfold ReadUvarint, PutUvarint, MaxVarintLen64.
  apply ReadUvarint_loop_Put; try lia.
  now rewrite Z.shiftl_0_r, Z.lor_0_l.
Qed.

(** *** Strings *)

Lemma string_of_bytes_of_string (s : string) :
  string_of_bytes (bytes_of_string s) = s.
Proof.
  unfold string_of_bytes, bytes_of_string. rewrite map_map.
  rewrite (map_ext _ (fun a => a)).
  - rewrite map_id. apply string_of_list_ascii_of_string.
  - intros a. rewrite N2Z.id. apply ascii_N_embedding.
Qed.


(** ** Readers only move forward *)

Lemma ReadByte_inr (r : reader) (b : byte) (r' : reader) :
  ReadByte r = inr (b, r') ->
  rbytes r = b :: rbytes r' /\ rerr r' = rerr r.
Proof.
  unfold ReadByte. destruct (rbytes r) as [|b0 t]; [discriminate|].
  intros H. inversion H; subst. cbn. auto.
Qed.

Lemma ReadUvarint_loop_shorter (n : nat) :
  forall i x s r v r',
    ReadUvarint_loop n i x s r = inr (v, r') ->
    (List.length (rbytes r') < List.length (rbytes r))%nat /\ rerr r' = rerr r.
Proof.
  induction n as [|n IH]; intros i x s r v r' H; cbn in H; [discriminate|].
  destruct (ReadByte r) as [err | [b r1]] eqn:Hb; [discriminate|].
  apply ReadByte_inr in Hb. destruct Hb as [Hb He].
  destruct (b <? 128).
  - destruct ((i =? 9) && (1 <? b)); [discriminate|].
    inversion H; subst. rewrite Hb. cbn. split; [lia | assumption].
  - apply IH in H. destruct H as [H1 H2]. rewrite Hb. cbn.
    split; [lia | congruence].
Qed.

Lemma ReadUvarint_shorter (r : reader) (v : Z) (r' : reader) :
  ReadUvarint r = inr (v, r') ->
  (List.length (rbytes r') < List.length (rbytes r))%nat /\ rerr r' = rerr r.
Proof. apply ReadUvarint_loop_shorter. Qed.

Lemma ReadFull_inr (r : reader) (n : Z) (b : list byte) (r' : reader) :
  ReadFull r n = inr (b, r') ->
  b = firstn (Z.to_nat n) (rbytes r) /\
  r' = mkReader (skipn (Z.to_nat n) (rbytes r)) (rerr r).
Proof.
  unfold ReadFull. destruct (n <=? len (rbytes r)); [|discriminate].
  intros H. inversion H; subst. auto.
Qed.

Lemma skipn_length_le {A} (k : nat) (l : list A) :
  (List.length (skipn k l) <= List.length l)%nat.
Proof. rewrite length_skipn. lia. Qed.

Section ApplyFacts.

Variable fs : filesystem.
Variable extractedDir : string.


(** A pass that goes round again has consumed at least its tag byte. *)
Lemma applyStep_Continue_shorter (st st1 : applyState) :
  applyStep fs extractedDir st = Continue st1 ->
  (List.length (rbytes (a_r st1)) < List.length (rbytes (a_r st)))%nat.
Proof.
  unfold applyStep.
  destruct (ReadByte (a_r st)) as [err | [op r1]] eqn:Hop.
  { destruct (error_eqb_EOF err); discriminate. }
  apply ReadByte_inr in Hop. destruct Hop as [Hop _].
  destruct (ReadUvarint r1) as [err | [size r2]] eqn:Hsz; [discriminate|].
  apply ReadUvarint_shorter in Hsz. destruct Hsz as [Hsz _].
  rewrite Hop. cbn [List.length].
  destruct (op =? DeltaOpData).
  { destruct (CopyN (a_dst st) r2 (int64 size)) as [[dst1 k] [e|]];
      [discriminate|].
    intros H. inversion H; subst. cbn.
    pose proof (skipn_length_le (Z.to_nat k) (rbytes r2)). lia. }
  destruct (op =? DeltaOpOpen).
  { destruct (maxAlloc <? size); [discriminate|].
    destruct (ReadFull r2 size) as [err | [nameBytes r3]] eqn:Hrf;
      [discriminate|].
    apply ReadFull_inr in Hrf. destruct Hrf as [_ Hr3].
    destruct (os_Open fs _ _) as [proc2 [err | f]]; [discriminate|].
    intros H. inversion H; subst. cbn.
    pose proof (skipn_length_le (Z.to_nat size) (rbytes r2)). lia. }
  destruct (op =? DeltaOpCopy).
  { destruct (a_currentFile st) as [f|]; [|discriminate].
    destruct (CopyN (a_dst st) (File_reader f) (int64 size))
      as [[dst1 k] [e|]]; [discriminate|].
    intros H. inversion H; subst. cbn. lia. }
  destruct (op =? DeltaOpAddData).
  { destruct (a_currentFile st) as [f|]; [|discriminate].
    destruct (maxAlloc <? size); [discriminate|].
    destruct (ReadFull r2 size) as [err | [addBytes r3]] eqn:Hrf;
      [discriminate|].
    apply ReadFull_inr in Hrf. destruct Hrf as [_ Hr3].
    destruct (File_ReadFull f size) as [err | [addBytes2 f1]];
      [discriminate|].
    destruct (Write (a_dst st) _) as [dst1 [e|]]; [discriminate|].
    intros H. inversion H; subst. cbn.
    pose proof (skipn_length_le (Z.to_nat size) (rbytes r2)). lia. }
  destruct (op =? DeltaOpSeek).
  { destruct (a_currentFile st) as [f|]; [|discriminate].
    destruct (File_Seek f (int64 size)) as [err | f1]; [discriminate|].
    intros H. inversion H; subst. cbn. lia. }
  discriminate.
Qed.

(** The loop returns within one pass more than there are decoded bytes. *)
Lemma applyLoop_enough (fuel : nat) :
  forall st, (List.length (rbytes (a_r st)) < fuel)%nat ->
             applyLoop fs extractedDir fuel st <> None.
Proof.
  induction fuel as [|k IH]; intros st Hlt; [lia|].
  cbn. destruct (applyStep fs extractedDir st) as [st1 | st1 | st1 e] eqn:Hst;
    try discriminate.
  apply IH. apply applyStep_Continue_shorter in Hst. lia.
Qed.

Lemma applyLoop_fuel (f1 : nat) :
  forall f2 st res,
    applyLoop fs extractedDir f1 st = Some res -> (f1 <= f2)%nat ->
    applyLoop fs extractedDir f2 st = Some res.
Proof.
  induction f1 as [|k IH]; intros f2 st res H Hle; [discriminate|].
  destruct f2 as [|k2]; [lia|]. cbn in *.
  destruct (applyStep fs extractedDir st); auto. apply IH; [assumption | lia].
Qed.

(** The loop always returns: [applyLoop_run] is its result. *)
Lemma applyLoop_run_total (st : applyState) :
  applyLoop fs extractedDir (S (List.length (rbytes (a_r st)))) st
  = Some (applyLoop_run fs extractedDir st).
Proof.
  unfold applyLoop_run.
  destruct (applyLoop fs extractedDir (S (List.length (rbytes (a_r st)))) st)
    eqn:H;
    [reflexivity|].
  exfalso. revert H. apply applyLoop_enough. lia.
Qed.

Lemma applyLoop_run_Continue (st st1 : applyState) :
  applyStep fs extractedDir st = Continue st1 ->
  applyLoop_run fs extractedDir st = applyLoop_run fs extractedDir st1.
Proof.
  intros Hst.
  pose proof (applyLoop_run_total st) as H.
  pose proof (applyLoop_run_total st1) as H1.
  pose proof (applyStep_Continue_shorter _ _ Hst) as Hlt.
  cbn [applyLoop] in H. rewrite Hst in H.
  apply applyLoop_fuel with (f2 := List.length (rbytes (a_r st))) in H1;
    [|lia].
  congruence.
Qed.

Lemma applyLoop_run_Break (st st1 : applyState) :
  applyStep fs extractedDir st = Break st1 ->
  applyLoop_run fs extractedDir st = (st1, None).
Proof.
  intros Hst. pose proof (applyLoop_run_total st) as H.
  cbn [applyLoop] in H. rewrite Hst in H. congruence.
Qed.

Lemma applyLoop_run_Return (st st1 : applyState) (e : error) :
  applyStep fs extractedDir st = Return st1 e ->
  applyLoop_run fs extractedDir st = (st1, Some e).
Proof.
  intros Hst. pose proof (applyLoop_run_total st) as H.
  cbn [applyLoop] in H. rewrite Hst in H. congruence.
Qed.

End ApplyFacts.

(** ** List and slice arithmetic *)

Lemma len_nonneg {A} (l : list A) : 0 <= len l.
Proof. unfold len. lia. Qed.

Lemma len_app {A} (l1 l2 : list A) : len (l1 ++ l2) = len l1 + len l2.
Proof. unfold len. rewrite length_app. lia. Qed.

Lemma len_nil_iff {A} (l : list A) : len l = 0 <-> l = [].
Proof.
  unfold len. split; intros H.
  - destruct l; [reflexivity | cbn in H; lia].
  - now subst.
Qed.

Lemma to_nat_len {A} (l : list A) : Z.to_nat (len l) = List.length l.
Proof. unfold len. apply Nat2Z.id. Qed.

Lemma firstn_len_app {A} (p rest : list A) :
  firstn (Z.to_nat (len p)) (p ++ rest) = p.
Proof.
  rewrite to_nat_len, firstn_app, Nat.sub_diag, firstn_all. cbn.
  apply app_nil_r.
Qed.

Lemma skipn_len_app {A} (p rest : list A) :
  skipn (Z.to_nat (len p)) (p ++ rest) = rest.
Proof.
  rewrite to_nat_len, skipn_app, Nat.sub_diag, skipn_all. reflexivity.
Qed.

Lemma len_firstn {A} (n : Z) (l : list A) :
  0 <= n <= len l -> len (firstn (Z.to_nat n) l) = n.
Proof. unfold len. intros H. rewrite length_firstn. lia. Qed.

Lemma len_skipn {A} (n : Z) (l : list A) :
  0 <= n <= len l -> len (skipn (Z.to_nat n) l) = len l - n.
Proof. unfold len. intros H. rewrite length_skipn. lia. Qed.

Lemma int64_small (x : Z) : x < 2 ^ 63 -> int64 x = x.
Proof.
  intros H. unfold int64.
  now replace (x <? 2 ^ 63) with true by (symmetry; apply Z.ltb_lt; lia).
Qed.

(** ** Reading what [writeOp] wrote *)

Lemma ReadFull_app (p rest : list byte) (te : option error) :
  ReadFull (mkReader (p ++ rest) te) (len p) = inr (p, mkReader rest te).
Proof.
  unfold ReadFull. cbn [rbytes rerr].
  replace (len p <=? len (p ++ rest)) with true
    by (symmetry; apply Z.leb_le; rewrite len_app;
        pose proof (len_nonneg rest); lia).
  now rewrite firstn_len_app, skipn_len_app.
Qed.

Lemma read_op_tag (op size : Z) (payload rest : list byte) (te : option error) :
  ReadByte (mkReader (op_bytes op size payload ++ rest) te)
  = inr (uint8 op, mkReader (PutUvarint size ++ payload ++ rest) te).
Proof.
  unfold op_bytes, ReadByte. cbn [rbytes rerr app].
  now rewrite <- app_assoc.
Qed.

Lemma Write_unbounded (dst : Writer) (p : list byte) :
  wroom dst = None -> Write dst p = (mkWriter (wbytes dst ++ p) None, None).
Proof. intros H. unfold Write. now rewrite H. Qed.

(** [io.CopyN] of [n] bytes that the source has, into a sink without
    limit. *)
Lemma CopyN_enough (dst : Writer) (src : reader) (n : Z) :
  wroom dst = None -> 0 <= n <= len (rbytes src) ->
  CopyN dst src n
  = (mkWriter (wbytes dst ++ firstn (Z.to_nat n) (rbytes src)) None, n, None).
Proof.
  intros Hroom Hn. unfold CopyN.
  destruct (Z.leb_spec n 0) as [Hle | Hgt].
  - assert (n = 0) by lia. subst n. cbn. rewrite app_nil_r.
    destruct dst as [b room]. cbn in *. now subst.
  - rewrite Z.min_l by lia. rewrite Write_unbounded by assumption.
    now rewrite Z.ltb_irrefl.
Qed.

Lemma File_reader_len (f : File) :
  0 <= f_pos f <= len (f_data f) ->
  len (rbytes (File_reader f)) = len (f_data f) - f_pos f.
Proof. intros H. unfold File_reader. cbn. now apply len_skipn. Qed.

Lemma File_ReadFull_enough (f : File) (n : Z) :
  0 <= n -> 0 <= f_pos f -> f_pos f + n <= len (f_data f) ->
  File_ReadFull f n
  = inr (firstn (Z.to_nat n) (skipn (Z.to_nat (f_pos f)) (f_data f)),
         File_advance f n).
Proof.
  intros Hn Hpos Hfit. unfold File_ReadFull, ReadFull.
  rewrite File_reader_len by lia.
  replace (n <=? len (f_data f) - f_pos f) with true
    by (symmetry; apply Z.leb_le; lia).
  reflexivity.
Qed.

(** ** One pass of the loop on each operation *)

Section Steps.

Variable fs : filesystem.
Variable extractedDir : string.

(** The pass reads the tag and the varint, then dispatches. *)
Ltac read_header Hsize :=
  unfold applyStep; cbn [a_r a_dst a_currentFile a_proc];
  rewrite read_op_tag;
  rewrite ReadUvarint_PutUvarint by Hsize.

Lemma step_Data (p rest : list byte) (te : option error)
      (cur : option File) (dst : Writer) (proc : process) :
  len p < 2 ^ 63 -> wroom dst = None ->
  applyStep fs extractedDir
    (mkApply (mkReader (data_op p ++ rest) te) cur dst proc)
  = Continue (mkApply (mkReader rest te) cur
                      (mkWriter (wbytes dst ++ p) None) proc).
Proof.
  intros Hlen Hroom. pose proof (len_nonneg p) as Hp.
  unfold data_op.
  read_header ltac:(lia).
  change (uint8 DeltaOpData =? DeltaOpData) with true. cbn match.
  rewrite int64_small by lia.
  rewrite CopyN_enough;
    [| assumption
     | cbn [rbytes]; rewrite len_app; pose proof (len_nonneg rest); lia].
  cbn [rbytes]. unfold advance. cbn [rbytes rerr].
  now rewrite firstn_len_app, skipn_len_app.
Qed.

Lemma step_Open (nameBytes rest : list byte) (te : option error)
      (cur : option File) (dst : Writer) (proc : process) :
  len nameBytes <= maxAlloc ->
  applyStep fs extractedDir
    (mkApply (mkReader (op_bytes DeltaOpOpen (len nameBytes) nameBytes ++ rest) te)
             cur dst proc)
  = match os_Open fs (extractedDir ++ "/" ++ string_of_bytes nameBytes)%string
                  (match cur with
                   | Some f => fst (File_Close (Some f) proc)
                   | None => proc
                   end) with
    | (proc2, inl err) => Return (mkApply (mkReader rest te) None dst proc2) err
    | (proc2, inr f) => Continue (mkApply (mkReader rest te) (Some f) dst proc2)
    end.
Proof.
  intros Hlen. pose proof (len_nonneg nameBytes) as Hp.
  assert (maxAlloc < 2 ^ 64) by (unfold maxAlloc; lia).
  read_header ltac:(lia).
  change (uint8 DeltaOpOpen =? DeltaOpData) with false.
  change (uint8 DeltaOpOpen =? DeltaOpOpen) with true. cbn match.
  replace (maxAlloc <? len nameBytes) with false
    by (symmetry; apply Z.ltb_ge; lia).
  now rewrite ReadFull_app.
Qed.

Lemma step_Copy (size : Z) (rest : list byte) (te : option error)
      (f : File) (dst : Writer) (proc : process) :
  0 <= size < 2 ^ 64 ->
  applyStep fs extractedDir
    (mkApply (mkReader (op_bytes DeltaOpCopy size [] ++ rest) te)
             (Some f) dst proc)
  = let '(dst1, k, err) := CopyN dst (File_reader f) (int64 size) in
    let st1 := mkApply (mkReader rest te) (Some (File_advance f k)) dst1 proc in
    match err with
    | Some e => Return st1 e
    | None => Continue st1
    end.
Proof.
  intros Hsize.
  read_header ltac:(lia).
  change (uint8 DeltaOpCopy =? DeltaOpData) with false.
  change (uint8 DeltaOpCopy =? DeltaOpOpen) with false.
  change (uint8 DeltaOpCopy =? DeltaOpCopy) with true. cbn match.
  reflexivity.
Qed.

Lemma step_AddData (payload rest : list byte) (te : option error)
      (f : File) (dst : Writer) (proc : process) :
  len payload <= maxAlloc ->
  applyStep fs extractedDir
    (mkApply (mkReader (op_bytes DeltaOpAddData (len payload) payload ++ rest) te)
             (Some f) dst proc)
  = match File_ReadFull f (len payload) with
    | inl err =>
        Return (mkApply (mkReader (op_bytes DeltaOpAddData (len payload) payload ++ rest) te)
                        (Some f) dst proc) err
    | inr (addBytes2, f1) =>
        match Write dst (add_bytes payload addBytes2) with
        | (dst1, Some e) => Return (mkApply (mkReader rest te) (Some f1) dst1 proc) e
        | (dst1, None) => Continue (mkApply (mkReader rest te) (Some f1) dst1 proc)
        end
    end.
Proof.
  intros Hlen. pose proof (len_nonneg payload) as Hp.
  assert (maxAlloc < 2 ^ 64) by (unfold maxAlloc; lia).
  read_header ltac:(lia).
  change (uint8 DeltaOpAddData =? DeltaOpData) with false.
  change (uint8 DeltaOpAddData =? DeltaOpOpen) with false.
  change (uint8 DeltaOpAddData =? DeltaOpCopy) with false.
  change (uint8 DeltaOpAddData =? DeltaOpAddData) with true. cbn match.
  replace (maxAlloc <? len payload) with false
    by (symmetry; apply Z.ltb_ge; lia).
  now rewrite ReadFull_app.
Qed.

Lemma step_Seek (pos : Z) (rest : list byte) (te : option error)
      (f : File) (dst : Writer) (proc : process) :
  0 <= pos < 2 ^ 64 ->
  applyStep fs extractedDir
    (mkApply (mkReader (op_bytes DeltaOpSeek pos [] ++ rest) te)
             (Some f) dst proc)
  = match File_Seek f (int64 pos) with
    | inl err =>
        Return (mkApply (mkReader (op_bytes DeltaOpSeek pos [] ++ rest) te)
                        (Some f) dst proc) err
    | inr f1 => Continue (mkApply (mkReader rest te) (Some f1) dst proc)
    end.
Proof.
  intros Hpos.
  read_header ltac:(lia).
  change (uint8 DeltaOpSeek =? DeltaOpData) with false.
  change (uint8 DeltaOpSeek =? DeltaOpOpen) with false.
  change (uint8 DeltaOpSeek =? DeltaOpCopy) with false.
  change (uint8 DeltaOpSeek =? DeltaOpAddData) with false.
  change (uint8 DeltaOpSeek =? DeltaOpSeek) with true. cbn match.
  reflexivity.
Qed.

(** A pass on the empty rest of a clean stream leaves the loop. *)
Lemma step_end (cur : option File) (dst : Writer) (proc : process) :
  applyStep fs extractedDir (mkApply (mkReader [] None) cur dst proc)
  = Break (mkApply (mkReader [] None) cur dst proc).
Proof. reflexivity. Qed.

(** A Copy, AddData or Seek met with no current file: the pass returns
    the error and has written nothing. *)
Lemma step_no_current_file (op size : Z) (r2 : reader) (b : list byte)
      (te : option error) (dst : Writer) (proc : process) :
  op = DeltaOpCopy \/ op = DeltaOpAddData \/ op = DeltaOpSeek ->
  ReadUvarint (mkReader b te) = inr (size, r2) ->
  applyStep fs extractedDir (mkApply (mkReader (op :: b) te) None dst proc)
  = Return (mkApply (mkReader (op :: b) te) None dst proc)
           (if op =? DeltaOpSeek then ErrNoCurrentFileSeek
            else ErrNoCurrentFileCopy).
Proof.
  intros Hop Hsz. unfold applyStep, ReadByte.
  cbn [a_r a_dst a_currentFile a_proc rbytes rerr].
  rewrite Hsz.
  destruct Hop as [-> | [-> | ->]]; reflexivity.
Qed.

End Steps.

(** ** Invariants of the loop *)

Section LoopInvariants.

Variable fs : filesystem.
Variable extractedDir : string.

(** What every pass preserves, the loop preserves. *)
Lemma applyLoop_invariant (P : applyState -> Prop) :
  (forall st, P st -> P (step_state (applyStep fs extractedDir st))) ->
  forall fuel st res,
    P st -> applyLoop fs extractedDir fuel st = Some res -> P (fst res).
Proof.
  intros Hstep fuel.
  induction fuel as [|k IH]; intros st res HP Hrun; [discriminate|].
  cbn in Hrun. specialize (Hstep st HP).
  destruct (applyStep fs extractedDir st) as [st1 | st1 | st1 e];
    cbn in Hstep, Hrun.
  - exact (IH st1 res Hstep Hrun).
  - inversion Hrun; subst. assumption.
  - inversion Hrun; subst. assumption.
Qed.

Lemma applyLoop_run_invariant (P : applyState -> Prop) :
  (forall st, P st -> P (step_state (applyStep fs extractedDir st))) ->
  forall st, P st -> P (fst (applyLoop_run fs extractedDir st)).
Proof.
  intros Hstep st HP.
  eapply applyLoop_invariant; [exact Hstep | exact HP |].
  apply applyLoop_run_total.
Qed.

(** Every path through one pass. *)
Ltac step_cases :=
  unfold applyStep;
  repeat match goal with
         | |- context [match ?x with _ => _ end] => destruct x eqn:?
         end;
  cbn [step_state a_r a_currentFile a_dst a_proc].

Lemma File_ReadFull_fd (f f1 : File) (n : Z) (b : list byte) :
  File_ReadFull f n = inr (b, f1) -> f_fd f1 = f_fd f.
Proof.
  unfold File_ReadFull. destruct (ReadFull (File_reader f) n) as [e | [b0 r]];
    [discriminate|].
  intros H. inversion H; subst. reflexivity.
Qed.

Lemma File_Seek_fd (f f1 : File) (n : Z) :
  File_Seek f n = inr f1 -> f_fd f1 = f_fd f.
Proof.
  unfold File_Seek. destruct (n <? 0); [discriminate|].
  intros H. inversion H; subst. reflexivity.
Qed.

Lemma os_Open_inr (path : string) (p p2 : process) (f : File) :
  os_Open fs path p = (p2, inr f) ->
  In (f_fd f) (openfds p2) /\ (forall ev, In ev (trace p) -> In ev (trace p2)).
Proof.
  unfold os_Open. destruct (fs path) as [data|]; [|discriminate].
  intros H. inversion H; subst. cbn. split; [now left|].
  intros ev Hin. apply in_or_app. now left.
Qed.

Lemma os_Open_trace (path : string) (p : process) (ev : event) :
  In ev (trace p) -> In ev (trace (fst (os_Open fs path p))).
Proof.
  intros Hin. unfold os_Open.
  destruct (fs path); cbn; apply in_or_app; now left.
Qed.

Lemma File_Close_trace (f : option File) (p : process) (ev : event) :
  In ev (trace p) -> In ev (trace (fst (File_Close f p))).
Proof.
  intros Hin. destruct f; cbn; [apply in_or_app|]; auto.
Qed.

Lemma applyStep_current_is_open (st : applyState) :
  current_is_open st ->
  current_is_open (step_state (applyStep fs extractedDir st)).
Proof.
  intros Hinv. unfold current_is_open in *.
  step_cases; try assumption; try discriminate;
    intros fcur Hfcur; inversion Hfcur; subst; cbn [f_fd File_advance];
    first
      [ now apply Hinv
      | congruence
      | apply Hinv; congruence
      | match goal with H : os_Open _ _ _ = _ |- _ =>
          apply os_Open_inr in H; tauto end
      | erewrite File_ReadFull_fd by eassumption; now apply Hinv
      | erewrite File_Seek_fd by eassumption; now apply Hinv ].
Qed.

(** Calls are only ever added to the trace. *)
Lemma applyStep_trace (ev : event) (st : applyState) :
  In ev (trace (a_proc st)) ->
  In ev (trace (a_proc (step_state (applyStep fs extractedDir st)))).
Proof.
  intros Hin.
  step_cases; try assumption;
    match goal with
    | H : os_Open _ ?path ?p = (?p2, _) |- _ =>
        replace p2 with (fst (os_Open fs path p)) by (now rewrite H);
        apply os_Open_trace
    end;
    (destruct (a_currentFile st);
     [ now apply (File_Close_trace (Some _)) | assumption ]).
Qed.

End LoopInvariants.

(** ** The writer on an encoder that accepts every write *)

Section WriterFacts.

Variable zstd : codec.
Hypothesis write_ok : forall plain p, zWrite_err zstd plain p = None.

Lemma writer_Write_open (p : list byte) (level : Z) (plain buf : list byte)
      (file : string) (pos : Z) :
  writer_Write zstd p (open_writer level plain buf file pos)
  = (open_writer level (plain ++ p) buf file pos, None).
Proof. unfold writer_Write, open_writer. cbn. now rewrite write_ok. Qed.

Lemma writeOp_open (op size : Z) (data : option (list byte))
      (level : Z) (plain buf : list byte) (file : string) (pos : Z) :
  writeOp zstd op size data (open_writer level plain buf file pos)
  = (open_writer level
       (plain ++ op_bytes op size (match data with Some p => p | None => [] end))
       buf file pos, None).
Proof.
  unfold writeOp, andThen. rewrite writer_Write_open.
  unfold op_bytes. destruct data as [p|].
  - rewrite writer_Write_open. now rewrite <- app_assoc.
  - unfold done. now rewrite app_nil_r.
Qed.

Lemma FlushBuffer_open (level : Z) (plain buf : list byte)
      (file : string) (pos : Z) :
  FlushBuffer zstd (open_writer level plain buf file pos)
  = (open_writer level (plain ++ flush_bytes buf) [] file pos, None).
Proof.
  unfold FlushBuffer, flush_bytes.
  change (buffer (open_writer level plain buf file pos)) with buf.
  destruct (Z.eqb_spec (len buf) 0) as [H0 | Hn].
  - apply len_nil_iff in H0. subst buf. now rewrite app_nil_r.
  - now rewrite writeOp_open.
Qed.

Lemma SetCurrentFile_open (name : string) (level : Z) (plain buf : list byte)
      (file : string) (pos : Z) :
  SetCurrentFile zstd name (open_writer level plain buf file pos)
  = if String.eqb file name
    then (open_writer level plain buf file pos, None)
    else (open_writer level
            (plain ++ flush_bytes buf
                   ++ op_bytes DeltaOpOpen (uint64 (len (bytes_of_string name)))
                               (bytes_of_string name))
            [] name 0, None).
Proof.
  unfold SetCurrentFile.
  change (currentFile (open_writer level plain buf file pos)) with file.
  destruct (String.eqb file name); cbn [negb]; [reflexivity|].
  unfold andThen. rewrite FlushBuffer_open, writeOp_open.
  cbn. unfold open_writer. now rewrite <- app_assoc.
Qed.

Lemma Seek_open (target : Z) (level : Z) (plain buf : list byte)
      (file : string) (pos : Z) :
  Seek zstd target (open_writer level plain buf file pos)
  = if pos =? target
    then (open_writer level plain buf file pos, None)
    else (open_writer level
            (plain ++ flush_bytes buf ++ op_bytes DeltaOpSeek target [])
            [] file target, None).
Proof.
  unfold Seek.
  change (currentPos (open_writer level plain buf file pos)) with pos.
  destruct (pos =? target); [reflexivity|].
  unfold andThen. rewrite FlushBuffer_open, writeOp_open.
  cbn. unfold open_writer. now rewrite <- app_assoc.
Qed.

Lemma SeekForward_open (delta : Z) (level : Z) (plain buf : list byte)
      (file : string) (pos : Z) :
  SeekForward zstd delta (open_writer level plain buf file pos)
  = (open_writer level
       (plain ++ flush_bytes buf
              ++ op_bytes DeltaOpSeek (uint64 (pos + delta)) [])
       [] file (uint64 (pos + delta)), None).
Proof.
  unfold SeekForward.
  change (set_currentPos (open_writer level plain buf file pos)
            (uint64 (currentPos (open_writer level plain buf file pos) + delta)))
    with (open_writer level plain buf file (uint64 (pos + delta))).
  unfold andThen. rewrite FlushBuffer_open.
  change (currentPos (open_writer level (plain ++ flush_bytes buf) [] file
                                  (uint64 (pos + delta))))
    with (uint64 (pos + delta)).
  rewrite writeOp_open. now rewrite <- app_assoc.
Qed.

Lemma CopyFile_open (size : Z) (level : Z) (plain buf : list byte)
      (file : string) (pos : Z) :
  CopyFile zstd size (open_writer level plain buf file pos)
  = (open_writer level
       (plain ++ flush_bytes buf ++ op_bytes DeltaOpCopy size [])
       [] file (uint64 (pos + size)), None).
Proof.
  unfold CopyFile, andThen. rewrite FlushBuffer_open, writeOp_open.
  cbn. unfold open_writer. now rewrite <- app_assoc.
Qed.

Lemma WriteAddContent_open (data : list byte) (level : Z)
      (plain buf : list byte) (file : string) (pos : Z) :
  WriteAddContent zstd data (open_writer level plain buf file pos)
  = (open_writer level
       (plain ++ flush_bytes buf
              ++ op_bytes DeltaOpAddData (uint64 (len data)) data)
       [] file (uint64 (pos + uint64 (len data))), None).
Proof.
  unfold WriteAddContent, andThen. rewrite FlushBuffer_open, writeOp_open.
  cbn. unfold open_writer. now rewrite <- app_assoc.
Qed.

Lemma WriteContent_open (data : list byte) (level : Z)
      (plain buf : list byte) (file : string) (pos : Z) :
  WriteContent zstd data (open_writer level plain buf file pos)
  = if deltaDataChunkSize <=? len (buf ++ data)
    then (open_writer level (plain ++ flush_bytes (buf ++ data)) [] file pos,
          None)
    else (open_writer level plain (buf ++ data) file pos, None).
Proof.
  unfold WriteContent.
  change (set_buffer (open_writer level plain buf file pos)
            (buffer (open_writer level plain buf file pos) ++ data))
    with (open_writer level plain (buf ++ data) file pos).
  change (buffer (open_writer level plain (buf ++ data) file pos))
    with (buf ++ data).
  destruct (deltaDataChunkSize <=? len (buf ++ data)); [|reflexivity].
  apply FlushBuffer_open.
Qed.

End WriterFacts.

(** ** Delta bytes *)

Lemma is_byteb_spec (b : Z) : is_byteb b = true <-> is_byte b.
Proof. unfold is_byteb, is_byte. rewrite andb_true_iff. lia. Qed.

(** Adding the old bytes back to [new - old] gives the new bytes. *)
Lemma add_delta_bytes (new : list byte) :
  forall old,
    List.length new = List.length old ->
    forallb is_byteb new = true ->
    add_bytes (delta_bytes new old) old = new.
Proof.
  induction new as [|n new IH]; intros [|o old] Hlen Hb; try discriminate.
  - reflexivity.
  - cbn in Hlen, Hb. apply andb_true_iff in Hb. destruct Hb as [Hn Hb].
    apply is_byteb_spec in Hn. unfold is_byte in Hn.
    unfold add_bytes, delta_bytes in *. cbn [combine map fst snd].
    f_equal.
    + unfold uint8. rewrite Z.add_mod_idemp_l by lia.
      replace (n - o + o) with n by lia. apply Z.mod_small. lia.
    + apply IH; [lia | assumption].
Qed.

Lemma delta_bytes_length (new old : list byte) :
  List.length new = List.length old ->
  List.length (delta_bytes new old) = List.length new.
Proof.
  intros H. unfold delta_bytes. rewrite length_map, length_combine. lia.
Qed.

(** ** Simulation of the writer by the applier *)

Section SimFacts.

Variable zstd : codec.
Variable fs : filesystem.
Variable extractedDir : string.
Variable dst0 : Writer.
Variable proc0 : process.

Hypothesis write_ok : forall plain p, zWrite_err zstd plain p = None.

Lemma decodes_nil :
  wroom dst0 = None ->
  decodes fs extractedDir dst0 proc0 [] None (wbytes dst0) proc0.
Proof.
  intros Hroom rest te. cbn [app].
  destruct dst0 as [b room]. cbn in *. now subst.
Qed.

Lemma decodes_step (plain bytes : list byte) (cur cur' : option File)
      (out out' : list byte) (proc proc' : process) :
  decodes fs extractedDir dst0 proc0 plain cur out proc ->
  (forall rest te,
      applyStep fs extractedDir
        (mkApply (mkReader (bytes ++ rest) te) cur (mkWriter out None) proc)
      = Continue (mkApply (mkReader rest te) cur' (mkWriter out' None) proc')) ->
  decodes fs extractedDir dst0 proc0 (plain ++ bytes) cur' out' proc'.
Proof.
  intros Hdec Hstep rest te. rewrite <- app_assoc, Hdec.
  apply applyLoop_run_Continue, Hstep.
Qed.

Lemma decodes_flush (plain buf : list byte) (cur : option File)
      (out : list byte) (proc : process) :
  decodes fs extractedDir dst0 proc0 plain cur out proc ->
  len buf < 2 ^ 63 ->
  decodes fs extractedDir dst0 proc0 (plain ++ flush_bytes buf) cur
          (out ++ buf) proc.
Proof.
  intros Hdec Hlen. unfold flush_bytes.
  destruct (Z.eqb_spec (len buf) 0) as [H0 | Hn].
  - apply len_nil_iff in H0. subst buf. now rewrite !app_nil_r.
  - pose proof (len_nonneg buf).
    rewrite uint64_small by lia.
    eapply decodes_step; [exact Hdec|].
    intros rest te. now apply (step_Data fs extractedDir buf).
Qed.

Lemma chunk_lt_int64 (buf : list byte) :
  len buf < deltaDataChunkSize -> len buf < 2 ^ 63.
Proof. unfold deltaDataChunkSize. lia. Qed.

(** [WriteContent] against a literal call of the plan. *)
Lemma sim_literal (s : planState) (d : deltaWriter) (data : list byte) :
  sim fs extractedDir dst0 proc0 s d ->
  len data <= maxAlloc ->
  exists d',
    WriteContent zstd data d = (d', None)
    /\ sim fs extractedDir dst0 proc0
           (mkPlan (pl_file s) (pl_pos s) (pl_out s ++ data)) d'.
Proof.
  intros (level & plain & buf & cur & out & proc
          & -> & Hbuf & Hdec & Hout & Hfile & Hpos) Hdata.
  rewrite WriteContent_open by assumption.
  destruct (Z.leb_spec deltaDataChunkSize (len (buf ++ data))) as [Hge | Hlt].
  - eexists. split; [reflexivity|].
    exists level, (plain ++ flush_bytes (buf ++ data)), [], cur,
      (out ++ buf ++ data), proc.
    cbn [pl_file pl_pos pl_out]. repeat split; try assumption; try lia.
    + apply decodes_flush; [assumption|].
      rewrite len_app. unfold deltaDataChunkSize, maxAlloc in *. lia.
    + rewrite app_nil_r, !app_assoc. now rewrite Hout.
  - eexists. split; [reflexivity|].
    exists level, plain, (buf ++ data), cur, out, proc.
    cbn [pl_file pl_pos pl_out]. repeat split; try assumption; try lia.
    rewrite !app_assoc. now rewrite Hout.
Qed.

(** *** What the applier does with each operation the writer emits *)

Lemma decodes_open (plain buf : list byte) (cur : option File)
      (out : list byte) (proc : process) (name : string) (data : list byte) :
  decodes fs extractedDir dst0 proc0 plain cur out proc ->
  len buf < 2 ^ 63 ->
  old_file fs extractedDir name = Some data ->
  len (bytes_of_string name) <= maxAlloc ->
  exists fd proc',
    decodes fs extractedDir dst0 proc0
      (plain ++ flush_bytes buf
             ++ op_bytes DeltaOpOpen (uint64 (len (bytes_of_string name)))
                         (bytes_of_string name))
      (Some (mkFile fd data 0)) (out ++ buf) proc'.
Proof.
  intros Hdec Hbuf Hfile Hname.
  pose proof (len_nonneg (bytes_of_string name)) as Hn.
  assert (maxAlloc < 2 ^ 64) by (unfold maxAlloc; lia).
  rewrite uint64_small by lia. rewrite app_assoc.
  eexists. eexists.
  eapply decodes_step; [apply decodes_flush; eassumption|].
  intros rest te. rewrite step_Open by assumption.
  rewrite string_of_bytes_of_string.
  unfold os_Open. unfold old_file in Hfile. rewrite Hfile.
  reflexivity.
Qed.

Lemma decodes_seek (plain buf : list byte) (f : File)
      (out : list byte) (proc : process) (pos : Z) :
  decodes fs extractedDir dst0 proc0 plain (Some f) out proc ->
  len buf < 2 ^ 63 ->
  0 <= pos < 2 ^ 63 ->
  decodes fs extractedDir dst0 proc0
    (plain ++ flush_bytes buf ++ op_bytes DeltaOpSeek pos [])
    (Some (mkFile (f_fd f) (f_data f) pos)) (out ++ buf) proc.
Proof.
  intros Hdec Hbuf Hpos. rewrite app_assoc.
  eapply decodes_step; [apply decodes_flush; eassumption|].
  intros rest te. rewrite step_Seek by lia.
  rewrite int64_small by lia. unfold File_Seek.
  now replace (pos <? 0) with false by (symmetry; apply Z.ltb_ge; lia).
Qed.

Lemma decodes_copy (plain buf : list byte) (f : File)
      (out : list byte) (proc : process) (size : Z) :
  decodes fs extractedDir dst0 proc0 plain (Some f) out proc ->
  len buf < 2 ^ 63 ->
  0 <= size -> 0 <= f_pos f ->
  f_pos f + size <= len (f_data f) -> len (f_data f) < 2 ^ 63 ->
  decodes fs extractedDir dst0 proc0
    (plain ++ flush_bytes buf ++ op_bytes DeltaOpCopy size [])
    (Some (File_advance f size))
    ((out ++ buf)
       ++ firstn (Z.to_nat size) (skipn (Z.to_nat (f_pos f)) (f_data f)))
    proc.
Proof.
  intros Hdec Hbuf Hsize Hpos Hfit Hdata. rewrite app_assoc.
  eapply decodes_step; [apply decodes_flush; eassumption|].
  intros rest te. rewrite step_Copy by lia.
  rewrite int64_small by lia.
  rewrite CopyN_enough; [reflexivity | reflexivity |].
  rewrite File_reader_len by lia. lia.
Qed.

Lemma decodes_add (plain buf : list byte) (f : File)
      (out : list byte) (proc : process) (new : list byte) :
  let old := firstn (Z.to_nat (len new))
                    (skipn (Z.to_nat (f_pos f)) (f_data f)) in
  decodes fs extractedDir dst0 proc0 plain (Some f) out proc ->
  len buf < 2 ^ 63 ->
  len new <= maxAlloc -> forallb is_byteb new = true ->
  0 <= f_pos f -> f_pos f + len new <= len (f_data f) ->
  decodes fs extractedDir dst0 proc0
    (plain ++ flush_bytes buf
           ++ op_bytes DeltaOpAddData (uint64 (len (delta_bytes new old)))
                       (delta_bytes new old))
    (Some (File_advance f (len new))) ((out ++ buf) ++ new) proc.
Proof.
  intros old Hdec Hbuf Hmax Hbytes Hpos Hfit.
  pose proof (len_nonneg new) as Hn.
  assert (Hlen : List.length new = List.length old).
  { subst old. rewrite length_firstn, length_skipn, to_nat_len.
    unfold len in *. lia. }
  assert (Hdl : len (delta_bytes new old) = len new).
  { unfold len. now rewrite delta_bytes_length. }
  assert (maxAlloc < 2 ^ 64) by (unfold maxAlloc; lia).
  rewrite Hdl, uint64_small by lia. rewrite app_assoc.
  eapply decodes_step; [apply decodes_flush; eassumption|].
  intros rest te. rewrite <- Hdl. rewrite step_AddData by lia.
  rewrite Hdl. rewrite File_ReadFull_enough by lia.
  fold old. rewrite add_delta_bytes by assumption.
  now rewrite Write_unbounded.
Qed.

(** *** Each call of a plan *)

Lemma sim_open_new (level : Z) (plain buf : list byte) (cur : option File)
      (out : list byte) (proc : process) (s : planState)
      (name : string) (data : list byte) :
  len buf < deltaDataChunkSize ->
  decodes fs extractedDir dst0 proc0 plain cur out proc ->
  out ++ buf = wbytes dst0 ++ pl_out s ->
  old_file fs extractedDir name = Some data ->
  name <> ""%string ->
  len (bytes_of_string name) <= maxAlloc ->
  sim fs extractedDir dst0 proc0 (mkPlan (Some name) 0 (pl_out s))
      (open_writer level
         (plain ++ flush_bytes buf
                ++ op_bytes DeltaOpOpen (uint64 (len (bytes_of_string name)))
                            (bytes_of_string name))
         [] name 0).
Proof.
  intros Hbuf Hdec Hout Hfile Hne Hlen.
  destruct (decodes_open plain buf cur out proc name data Hdec
              (chunk_lt_int64 _ Hbuf) Hfile Hlen) as (fd & proc' & Hd).
  exists level. eexists.
  exists [], (Some (mkFile fd data 0)), (out ++ buf), proc'.
  cbn [pl_file pl_pos pl_out]. split; [reflexivity|].
  split; [reflexivity|]. split; [exact Hd|].
  split; [now rewrite app_nil_r|].
  split; [|lia].
  unfold same_file. cbn [pl_file pl_pos]. split; [assumption|].
  now exists fd, data.
Qed.

Lemma sim_set_file (s s' : planState) (d : deltaWriter) (name : string) :
  sim fs extractedDir dst0 proc0 s d ->
  plan_set_file fs extractedDir s name = Some s' ->
  exists d',
    SetCurrentFile zstd name d = (d', None)
    /\ sim fs extractedDir dst0 proc0 s' d'.
Proof.
  intros Hsim Hplan.
  pose proof Hsim as (level & plain & buf & cur & out & proc
                      & Hd & Hbuf & Hdec & Hout & Hfile & Hpos).
  subst d. rewrite SetCurrentFile_open by assumption.
  unfold plan_set_file in Hplan.
  assert (Hnew :
    match old_file fs extractedDir name with
    | Some _ =>
        if negb (String.eqb name "") && (len (bytes_of_string name) <=? maxAlloc)
        then Some (mkPlan (Some name) 0 (pl_out s)) else None
    | None => None
    end = Some s' ->
    sim fs extractedDir dst0 proc0 s'
        (open_writer level
           (plain ++ flush_bytes buf
                  ++ op_bytes DeltaOpOpen (uint64 (len (bytes_of_string name)))
                              (bytes_of_string name))
           [] name 0) /\ name <> ""%string).
  { destruct (old_file fs extractedDir name) as [data|] eqn:Hold;
      [|discriminate].
    destruct (String.eqb_spec name "") as [He | Hne]; [discriminate|].
    cbn [negb andb].
    destruct (Z.leb_spec (len (bytes_of_string name)) maxAlloc) as [Hle | Hgt];
      [|discriminate].
    intros H. inversion H; subst s'. split; [|assumption].
    eapply sim_open_new; eassumption. }
  destruct (pl_file s) as [n|] eqn:Hf.
  - destruct (String.eqb_spec n name) as [Heq | Hne].
    + inversion Hplan; subst s'. eexists. split; [reflexivity|].
      exact Hsim.
    + destruct (Hnew Hplan) as [Hs _]. eexists. split; [reflexivity|].
      exact Hs.
  - destruct (Hnew Hplan) as [Hs Hne].
    destruct (String.eqb_spec "" name) as [Heq | _]; [congruence|].
    eexists. split; [reflexivity|]. exact Hs.
Qed.

Lemma sim_seek (s s' : planState) (d : deltaWriter) (pos : Z) :
  sim fs extractedDir dst0 proc0 s d ->
  plan_seek s pos = Some s' ->
  exists d',
    Seek zstd pos d = (d', None)
    /\ sim fs extractedDir dst0 proc0 s' d'.
Proof.
  intros Hsim Hplan.
  pose proof Hsim as (level & plain & buf & cur & out & proc
                      & Hd & Hbuf & Hdec & Hout & Hfile & Hpos).
  subst d. rewrite Seek_open by assumption.
  unfold plan_seek in Hplan. unfold same_file in Hfile.
  destruct (pl_file s) as [n|] eqn:Hf; [|discriminate].
  destruct Hfile as (Hne & fd & data & Hold & Hcur).
  destruct (Z.leb_spec 0 pos) as [H0 | H0]; [|discriminate].
  destruct (Z.ltb_spec pos (2 ^ 63)) as [H1 | H1]; [|discriminate].
  cbn [andb] in Hplan. inversion Hplan; subst s'.
  destruct (Z.eqb_spec (pl_pos s) pos) as [Heq | Hneq].
  - eexists. split; [reflexivity|]. subst pos.
    replace (mkPlan (Some n) (pl_pos s) (pl_out s)) with s
      by (destruct s; cbn in *; now subst).
    exact Hsim.
  - eexists. split; [reflexivity|].
    exists level. eexists.
    exists [], (Some (mkFile fd data pos)), (out ++ buf), proc.
    cbn [pl_file pl_pos pl_out]. split; [reflexivity|].
    split; [reflexivity|].
    split.
    { subst cur.
      apply (decodes_seek plain buf (mkFile fd data (pl_pos s)) out proc pos);
        [assumption | now apply chunk_lt_int64 | lia]. }
    split; [now rewrite app_nil_r|].
    split; [|lia].
    unfold same_file. cbn [pl_file pl_pos]. split; [assumption|].
    now exists fd, data.
Qed.

Lemma old_bytes_inv (s : planState) (n : Z) (old : list byte) :
  old_bytes fs extractedDir s n = Some old ->
  exists name data,
    pl_file s = Some name
    /\ old_file fs extractedDir name = Some data
    /\ 0 <= n /\ pl_pos s + n <= len data /\ len data < 2 ^ 63
    /\ old = firstn (Z.to_nat n) (skipn (Z.to_nat (pl_pos s)) data).
Proof.
  unfold old_bytes.
  destruct (pl_file s) as [name|]; [|discriminate].
  destruct (old_file fs extractedDir name) as [data|] eqn:Hold; [|discriminate].
  destruct (Z.leb_spec 0 n); [|discriminate].
  destruct (Z.leb_spec (pl_pos s + n) (len data)); [|discriminate].
  destruct (Z.ltb_spec (len data) (2 ^ 63)); [|discriminate].
  cbn [andb]. intros Heq. inversion Heq; subst.
  exists name, data. auto 10.
Qed.

Lemma sim_copy (s s' : planState) (d : deltaWriter) (size : Z) :
  sim fs extractedDir dst0 proc0 s d ->
  plan_copy fs extractedDir s size = Some s' ->
  exists d',
    CopyFile zstd size d = (d', None)
    /\ sim fs extractedDir dst0 proc0 s' d'.
Proof.
  intros (level & plain & buf & cur & out & proc
          & Hd & Hbuf & Hdec & Hout & Hfile & Hpos) Hplan.
  subst d. rewrite CopyFile_open by assumption.
  unfold plan_copy in Hplan.
  destruct (old_bytes fs extractedDir s size) as [old|] eqn:Hold;
    [|discriminate].
  inversion Hplan; subst s'.
  apply old_bytes_inv in Hold.
  destruct Hold as (name & data & Hf & Hdata & Hsz & Hfit & Hlen & ->).
  unfold same_file in Hfile. rewrite Hf in *.
  destruct Hfile as (Hne & fd & data' & Hold' & ->).
  assert (data' = data) by congruence. subst data'.
  rewrite uint64_small by lia.
  eexists. split; [reflexivity|].
  exists level. eexists.
  exists [], (Some (File_advance (mkFile fd data (pl_pos s)) size)),
    ((out ++ buf) ++ firstn (Z.to_nat size) (skipn (Z.to_nat (pl_pos s)) data)),
    proc.
  cbn [pl_file pl_pos pl_out]. split; [reflexivity|].
  split; [reflexivity|].
  split.
  { apply (decodes_copy plain buf (mkFile fd data (pl_pos s)) out proc size);
      cbn [f_pos f_data]; try assumption; try lia.
    now apply chunk_lt_int64. }
  split; [now rewrite app_nil_r, Hout, app_assoc|].
  split; [|lia].
  unfold same_file. cbn [pl_file pl_pos]. split; [assumption|].
  now exists fd, data.
Qed.

Lemma sim_add (s : planState) (d : deltaWriter) (new old : list byte) :
  sim fs extractedDir dst0 proc0 s d ->
  old_bytes fs extractedDir s (len new) = Some old ->
  forallb is_byteb new = true ->
  len new <= maxAlloc ->
  exists d',
    WriteAddContent zstd (delta_bytes new old) d = (d', None)
    /\ sim fs extractedDir dst0 proc0
           (mkPlan (pl_file s) (pl_pos s + len new) (pl_out s ++ new)) d'.
Proof.
  intros (level & plain & buf & cur & out & proc
          & Hd & Hbuf & Hdec & Hout & Hfile & Hpos) Hold Hbytes Hmax.
  subst d. rewrite WriteAddContent_open by assumption.
  apply old_bytes_inv in Hold.
  destruct Hold as (name & data & Hf & Hdata & Hsz & Hfit & Hlen & ->).
  unfold same_file in Hfile. rewrite Hf in *.
  destruct Hfile as (Hne & fd & data' & Hold' & ->).
  assert (data' = data) by congruence. subst data'.
  set (old := firstn (Z.to_nat (len new)) (skipn (Z.to_nat (pl_pos s)) data)).
  assert (Hll : List.length new = List.length old).
  { subst old. rewrite length_firstn, length_skipn, to_nat_len.
    unfold len in *. lia. }
  assert (Hdl : len (delta_bytes new old) = len new).
  { unfold len. now rewrite delta_bytes_length. }
  assert (maxAlloc < 2 ^ 64) by (unfold maxAlloc; lia).
  replace (uint64 (pl_pos s + uint64 (len (delta_bytes new old))))
    with (pl_pos s + len new)
    by (rewrite Hdl, (uint64_small (len new)) by lia;
        now rewrite uint64_small by lia).
  eexists. split; [reflexivity|].
  exists level. eexists.
  exists [], (Some (File_advance (mkFile fd data (pl_pos s)) (len new))),
    ((out ++ buf) ++ new), proc.
  cbn [pl_file pl_pos pl_out]. split; [reflexivity|].
  split; [reflexivity|].
  split.
  { apply (decodes_add plain buf (mkFile fd data (pl_pos s)) out proc new);
      cbn [f_pos f_data]; try assumption; try lia.
    now apply chunk_lt_int64. }
  split; [now rewrite app_nil_r, Hout, app_assoc|].
  split; [|lia].
  unfold same_file. cbn [pl_file pl_pos]. split; [assumption|].
  now exists fd, data.
Qed.

Lemma sim_seek_by (s s' : planState) (d : deltaWriter) (delta : Z) :
  sim fs extractedDir dst0 proc0 s d ->
  plan_seek s (pl_pos s + delta) = Some s' ->
  exists d',
    SeekForward zstd delta d = (d', None)
    /\ sim fs extractedDir dst0 proc0 s' d'.
Proof.
  intros (level & plain & buf & cur & out & proc
          & Hd & Hbuf & Hdec & Hout & Hfile & Hpos) Hplan.
  subst d. rewrite SeekForward_open by assumption.
  unfold plan_seek in Hplan. unfold same_file in Hfile.
  destruct (pl_file s) as [n|] eqn:Hf; [|discriminate].
  destruct Hfile as (Hne & fd & data & Hold & Hcur).
  destruct (Z.leb_spec 0 (pl_pos s + delta)) as [H0 | H0]; [|discriminate].
  destruct (Z.ltb_spec (pl_pos s + delta) (2 ^ 63)) as [H1 | H1];
    [|discriminate].
  cbn [andb] in Hplan. inversion Hplan; subst s'.
  rewrite uint64_small by lia.
  eexists. split; [reflexivity|].
  exists level. eexists.
  exists [], (Some (mkFile fd data (pl_pos s + delta))), (out ++ buf), proc.
  cbn [pl_file pl_pos pl_out]. split; [reflexivity|].
  split; [reflexivity|].
  split.
  { subst cur.
    apply (decodes_seek plain buf (mkFile fd data (pl_pos s)) out proc
                        (pl_pos s + delta));
      [assumption | now apply chunk_lt_int64 | lia]. }
  split; [now rewrite app_nil_r|].
  split; [|lia].
  unfold same_file. cbn [pl_file pl_pos]. split; [assumption|].
  now exists fd, data.
Qed.

(** A valid call is carried out by the writer without error and keeps
    the writer in step with the plan. *)
Lemma sim_call (s s' : planState) (d : deltaWriter) (c : call) :
  sim fs extractedDir dst0 proc0 s d ->
  plan_step fs extractedDir s c = Some s' ->
  exists d',
    encode_call fs extractedDir zstd s c d = (d', None)
    /\ sim fs extractedDir dst0 proc0 s' d'.
Proof.
  intros Hsim Hplan. destruct c as [data | name | pos | delta | size
                                   | offset size | name size | new];
    cbn [plan_step encode_call] in *.
  - destruct (Z.leb_spec (len data) maxAlloc) as [Hle | Hgt]; [|discriminate].
    inversion Hplan; subst s'. exact (sim_literal s d data Hsim Hle).
  - exact (sim_set_file _ _ _ _ Hsim Hplan).
  - exact (sim_seek _ _ _ _ Hsim Hplan).
  - destruct (0 <=? delta); [|discriminate].
    exact (sim_seek_by _ _ _ _ Hsim Hplan).
  - exact (sim_copy _ _ _ _ Hsim Hplan).
  - destruct (plan_seek s offset) as [s1|] eqn:Hs1; [|discriminate].
    destruct (sim_seek _ _ _ _ Hsim Hs1) as (d1 & Hd1 & Hsim1).
    destruct (sim_copy _ _ _ _ Hsim1 Hplan) as (d2 & Hd2 & Hsim2).
    exists d2. split; [|assumption].
    unfold CopyFileAt, andThen. now rewrite Hd1.
  - destruct (plan_set_file fs extractedDir s name) as [s1|] eqn:Hs1;
      [|discriminate].
    destruct (plan_seek s1 0) as [s2|] eqn:Hs2; [|discriminate].
    destruct (sim_set_file _ _ _ _ Hsim Hs1) as (d1 & Hd1 & Hsim1).
    destruct (sim_seek _ _ _ _ Hsim1 Hs2) as (d2 & Hd2 & Hsim2).
    destruct (sim_copy _ _ _ _ Hsim2 Hplan) as (d3 & Hd3 & Hsim3).
    exists d3. split; [|assumption].
    unfold WriteOldFile, andThen. now rewrite Hd1, Hd2.
  - destruct (old_bytes fs extractedDir s (len new)) as [old|] eqn:Hold;
      [|discriminate].
    destruct (forallb is_byteb new) eqn:Hbytes; [|discriminate].
    destruct (Z.leb_spec (len new) maxAlloc) as [Hle | Hgt]; [|discriminate].
    cbn [andb] in Hplan. inversion Hplan; subst s'.
    exact (sim_add s d new old Hsim Hold Hbytes Hle).
Qed.

Lemma sim_run (cs : list call) :
  forall (s s' : planState) (d : deltaWriter),
    sim fs extractedDir dst0 proc0 s d ->
    plan_run fs extractedDir s cs = Some s' ->
    exists d',
      encode_plan fs extractedDir zstd s cs d = (d', None)
      /\ sim fs extractedDir dst0 proc0 s' d'.
Proof.
  induction cs as [|c cs IH]; intros s s' d Hsim Hrun; cbn in Hrun.
  - inversion Hrun; subst s'. exists d. now split.
  - destruct (plan_step fs extractedDir s c) as [s1|] eqn:Hstep;
      [|discriminate].
    destruct (sim_call _ _ _ _ Hsim Hstep) as (d1 & Hd1 & Hsim1).
    destruct (IH _ _ _ Hsim1 Hrun) as (d2 & Hd2 & Hsim2).
    exists d2. split; [|assumption].
    cbn [encode_plan]. unfold andThen. now rewrite Hd1, Hstep.
Qed.

Lemma sim_start (level : Z) :
  wroom dst0 = None ->
  sim fs extractedDir dst0 proc0 plan0 (open_writer level [] [] "" 0).
Proof.
  intros Hroom.
  exists level, [], [], None, (wbytes dst0), proc0.
  cbn [plan0 pl_file pl_pos pl_out]. split; [reflexivity|].
  split; [reflexivity|]. split; [now apply decodes_nil|].
  split; [reflexivity|]. split; [reflexivity|]. lia.
Qed.

(** Once the pending buffer is flushed, the wire decodes to the bytes of
    the plan. *)
Lemma sim_flush (s : planState) (d : deltaWriter) :
  sim fs extractedDir dst0 proc0 s d ->
  exists level plain cur proc,
    FlushBuffer zstd d
    = (open_writer level plain []
                   (match pl_file s with Some n => n | None => ""%string end)
                   (pl_pos s), None)
    /\ decodes fs extractedDir dst0 proc0 plain cur
               (wbytes dst0 ++ pl_out s) proc.
Proof.
  intros (level & plain & buf & cur & out & proc
          & Hd & Hbuf & Hdec & Hout & Hfile & Hpos).
  subst d. rewrite FlushBuffer_open by assumption.
  exists level, (plain ++ flush_bytes buf), cur, proc.
  split; [reflexivity|]. rewrite <- Hout.
  apply decodes_flush; [assumption | now apply chunk_lt_int64].
Qed.

End SimFacts.

(** * The claims of the specification *)

(** ** AddData arithmetic *)

Lemma add_bytes_nth (a b : list byte) (i : nat) :
  List.length a = List.length b ->
  nth i (add_bytes a b) 0 = (nth i a 0 + nth i b 0) mod 256.
Proof.
  intros Hlen. unfold add_bytes.
  change 0 with (uint8 (fst (0, 0) + snd (0, 0))) at 1.
  rewrite (map_nth (fun xy => uint8 (fst xy + snd xy))).
  now rewrite combine_nth by assumption.
Qed.

Lemma add_bytes_length (a b : list byte) :
  List.length a = List.length b ->
  List.length (add_bytes a b) = List.length a.
Proof.
  intros Hlen. unfold add_bytes. rewrite length_map, length_combine. lia.
Qed.

(** C5. An AddData operation of count N, decoded with a file open that
    has N bytes left at its cursor and with its N payload bytes in the
    stream, writes exactly N bytes, the i-th being payload[i] + old[i]
    modulo 256, takes the N old bytes from the file (the cursor advances
    by N) and goes on to the next operation; delta bytes [5, 9, 1] against
    old bytes [10, 250, 0] give [15, 3, 1]. *)
Theorem AddData_decodes
        (fs : filesystem) (extractedDir : string)
        (payload rest : list byte) (te : option error)
        (f : File) (dst : Writer) (proc : process) :
  len payload <= maxAlloc ->
  0 <= f_pos f ->
  f_pos f + len payload <= len (f_data f) ->
  wroom dst = None ->
  let old := firstn (Z.to_nat (len payload))
                    (skipn (Z.to_nat (f_pos f)) (f_data f)) in
  let out := add_bytes payload old in
  applyStep fs extractedDir
    (mkApply (mkReader (op_bytes DeltaOpAddData (len payload) payload ++ rest) te)
             (Some f) dst proc)
  = Continue (mkApply (mkReader rest te)
                      (Some (File_advance f (len payload)))
                      (mkWriter (wbytes dst ++ out) None) proc)
  /\ len out = len payload
  /\ (forall i, (i < List.length payload)%nat ->
                nth i out 0 = (nth i payload 0 + nth i old 0) mod 256)
  /\ add_bytes [5; 9; 1] [10; 250; 0] = [15; 3; 1].
Proof.
  intros Hmax Hpos Hfit Hroom old out.
  pose proof (len_nonneg payload) as Hp.
  assert (Hlen : List.length payload = List.length old).
  { subst old. rewrite length_firstn, length_skipn, to_nat_len.
    unfold len in *. lia. }
  repeat split.
  - rewrite step_AddData by assumption.
    rewrite File_ReadFull_enough by lia.
    fold old. fold out. now rewrite Write_unbounded.
  - unfold len. subst out. now rewrite add_bytes_length.
  - intros i _. subst out. now apply add_bytes_nth.
Qed.

Lemma AddData_decodes_witness :
  applyStep (fun _ => None) "/old"
    (mkApply (mkReader [3; 3; 5; 9; 1] None)
             (Some (mkFile 3 [10; 250; 0] 0)) sink process0)
  = Continue (mkApply (mkReader [] None)
                      (Some (mkFile 3 [10; 250; 0] 3))
                      (mkWriter [15; 3; 1] None) process0).
Proof.
  pose proof (AddData_decodes (fun _ => None) "/old" [5; 9; 1] [] None
                (mkFile 3 [10; 250; 0] 0) sink process0) as H.
  cbv beta zeta in H.
  destruct H as [H _].
  - vm_compute. discriminate.
  - cbn. lia.
  - vm_compute. discriminate.
  - reflexivity.
  - exact H.
Defined.

(** ** Header rejection *)

Lemma bytes_Equal_true (a b : list byte) : bytes_Equal a b = true <-> a = b.
Proof.
  unfold bytes_Equal. destruct (list_eq_dec Z.eq_dec a b); split;
    congruence.
Qed.

Lemma ReadFull_header_ok (delta : reader) :
  firstn 8 (rbytes delta) = deltaHeader ->
  ReadFull delta (len deltaHeader)
  = inr (deltaHeader, mkReader (skipn 8 (rbytes delta)) (rerr delta)).
Proof.
  intros H. unfold ReadFull.
  assert (Hlen : (8 <= List.length (rbytes delta))%nat).
  { destruct (Nat.le_gt_cases 8 (List.length (rbytes delta))); [assumption|].
    apply (f_equal (@List.length _)) in H.
    rewrite length_firstn in H.
    change (List.length deltaHeader) with 8%nat in H. lia. }
  replace (len deltaHeader <=? len (rbytes delta)) with true
    by (symmetry; apply Z.leb_le; change (len deltaHeader) with 8;
        unfold len; lia).
  change (Z.to_nat (len deltaHeader)) with 8%nat. now rewrite H.
Qed.

(** C6. A stream whose first 8 bytes are not the magic is rejected with
    a format error ("Invalid delta format" when it has 8 bytes, the
    short-read error when it is shorter), with the sink and the process
    untouched: zstd.NewReader is not called, no operation is processed.
    The decompressor is initialised exactly for the streams that start
    with the magic. *)
Theorem header_checked_before_decompression
        (zstd : codec) (fs : filesystem) (extractedDir : string)
        (delta : reader) (dst : Writer) (proc : process) :
  ~ In EvZstdNewReader (trace proc) ->
  let res := ApplyDelta zstd fs extractedDir delta dst proc in
  (firstn 8 (rbytes delta) <> deltaHeader ->
   (exists e, res_err res = Some e
              /\ (8 <= len (rbytes delta) -> e = ErrInvalidDeltaFormat)
              /\ (rerr delta = None -> format_error e))
   /\ res_dst res = dst /\ res_proc res = proc)
  /\ (In EvZstdNewReader (trace (res_proc res))
      <-> firstn 8 (rbytes delta) = deltaHeader).
Proof.
  intros Hfresh res.
  assert (Hbad : firstn 8 (rbytes delta) <> deltaHeader ->
                 (exists e, res_err res = Some e
                            /\ (8 <= len (rbytes delta) -> e = ErrInvalidDeltaFormat)
                            /\ (rerr delta = None -> format_error e))
                 /\ res_dst res = dst /\ res_proc res = proc).
  { intros Hne. subst res. unfold ApplyDelta, ReadFull.
    change (len deltaHeader) with 8. change (Z.to_nat 8) with 8%nat.
    destruct (Z.leb_spec 8 (len (rbytes delta))) as [Hge | Hlt].
    - replace (bytes_Equal (firstn 8 (rbytes delta)) deltaHeader) with false.
      + cbn. repeat split. exists ErrInvalidDeltaFormat. cbn. auto.
      + symmetry. apply not_true_is_false. now rewrite bytes_Equal_true.
    - cbn. repeat split.
      eexists. split; [reflexivity|]. split; [lia|].
      intros ->. destruct (rbytes delta); exact I. }
  split; [exact Hbad|]. split.
  - intros Hin.
    destruct (list_eq_dec Z.eq_dec (firstn 8 (rbytes delta)) deltaHeader)
      as [Heq | Hne]; [assumption|].
    destruct (Hbad Hne) as (_ & _ & Hproc). rewrite Hproc in Hin. tauto.
  - intros Heq. subst res. unfold ApplyDelta.
    rewrite ReadFull_header_ok by assumption.
    replace (bytes_Equal deltaHeader deltaHeader) with true
      by (symmetry; now apply bytes_Equal_true).
    cbn [negb].
    destruct (zNewReader zstd _) as [err | r].
    + cbn. apply in_or_app. right. now left.
    + destruct (applyLoop_run fs extractedDir _) as [st err] eqn:Hrun.
      cbn [res_proc log trace maybeClose File_Close fst].
      apply in_or_app. left.
      replace st with (fst (applyLoop_run fs extractedDir
        (mkApply r None dst (log EvZstdNewReader proc)))) by (now rewrite Hrun).
      apply applyLoop_run_invariant
        with (P := fun s => In EvZstdNewReader (trace (a_proc s))).
      * intros s. apply applyStep_trace.
      * cbn. apply in_or_app. right. now left.
Qed.

Lemma header_checked_before_decompression_witness :
  res_err (ApplyDelta zstd_stored (fun _ => None) "/old"
             (mkReader [116; 97; 114; 100; 102; 50; 10; 0; 0; 1; 65] None)
             sink process0)
  = Some ErrInvalidDeltaFormat
  /\ res_dst (ApplyDelta zstd_stored (fun _ => None) "/old"
                (mkReader [116; 97; 114; 100; 102; 50; 10; 0; 0; 1; 65] None)
                sink process0) = sink.
Proof.
  destruct (header_checked_before_decompression zstd_stored (fun _ => None)
              "/old" (mkReader [116; 97; 114; 100; 102; 50; 10; 0; 0; 1; 65] None)
              sink process0) as [H _].
  - cbn. tauto.
  - destruct H as [[e (He & Hfmt & _)] [Hdst _]].
    + cbn. discriminate.
    + split; [|exact Hdst].
      rewrite He. f_equal. apply Hfmt. vm_compute. discriminate.
Defined.

(** ** Operations that need a current file *)

(** A run of Data operations copies their payloads to the sink. *)
Lemma applyLoop_run_data (fs : filesystem) (extractedDir : string)
      (chunks : list (list byte)) :
  forall (rest : list byte) (te : option error) (cur : option File)
         (dst : Writer) (proc : process),
    Forall (fun c => len c < 2 ^ 63) chunks ->
    wroom dst = None ->
    applyLoop_run fs extractedDir
      (mkApply (mkReader (flat_map data_op chunks ++ rest) te) cur dst proc)
    = applyLoop_run fs extractedDir
        (mkApply (mkReader rest te) cur
                 (mkWriter (wbytes dst ++ List.concat chunks) None) proc).
Proof.
  induction chunks as [|c cs IH]; intros rest te cur dst proc Hall Hroom.
  - cbn. rewrite app_nil_r. destruct dst as [b room]. cbn in *. now subst.
  - inversion Hall as [|? ? Hc Hcs]; subst.
    cbn [flat_map List.concat]. rewrite <- app_assoc.
    erewrite applyLoop_run_Continue by (now apply step_Data).
    rewrite IH by (auto; reflexivity).
    cbn [wbytes]. now rewrite app_assoc.
Qed.

(** C7. In a decoded stream where a Copy, AddData or Seek operation
    comes before any Open (only Data operations precede it), ApplyDelta
    fails at that operation with the "no current file" error, and the
    sink holds the payloads of the preceding Data operations and nothing
    written for the failing operation. *)
Theorem no_current_file_rejected
        (zstd : codec) (fs : filesystem) (extractedDir : string)
        (frame : list byte) (derr : option error)
        (chunks : list (list byte)) (op size : Z) (b : list byte)
        (te : option error) (r2 : reader)
        (dst : Writer) (proc : process) :
  zNewReader zstd (mkReader frame derr)
  = inr (mkReader (flat_map data_op chunks ++ op :: b) te) ->
  op = DeltaOpCopy \/ op = DeltaOpAddData \/ op = DeltaOpSeek ->
  ReadUvarint (mkReader b te) = inr (size, r2) ->
  Forall (fun c => len c < 2 ^ 63) chunks ->
  wroom dst = None ->
  let res := ApplyDelta zstd fs extractedDir
                        (mkReader (deltaHeader ++ frame) derr) dst proc in
  res_err res = Some (if op =? DeltaOpSeek then ErrNoCurrentFileSeek
                      else ErrNoCurrentFileCopy)
  /\ wbytes (res_dst res) = wbytes dst ++ List.concat chunks
  /\ openfds (res_proc res) = openfds proc.
Proof.
  intros Hz Hop Hsz Hall Hroom res. subst res. unfold ApplyDelta.
  rewrite ReadFull_header_ok by reflexivity.
  replace (bytes_Equal deltaHeader deltaHeader) with true
    by (symmetry; now apply bytes_Equal_true).
  cbn [negb rbytes rerr app skipn deltaHeader]. rewrite Hz.
  rewrite applyLoop_run_data by assumption.
  erewrite applyLoop_run_Return
    by (eapply step_no_current_file; eassumption).
  cbn. auto.
Qed.

Lemma no_current_file_rejected_witness :
  let res := ApplyDelta zstd_stored (fun _ => None) "/old"
               (mkReader (deltaHeader ++ [0; 2; 104; 105; 2; 6]) None)
               sink process0 in
  res_err res = Some ErrNoCurrentFileCopy /\ wbytes (res_dst res) = [104; 105].
Proof.
  destruct (no_current_file_rejected zstd_stored (fun _ => None) "/old"
              [0; 2; 104; 105; 2; 6] None [[104; 105]] 2 6 [6] None
              (mkReader [] None) sink process0) as (He & Hd & _).
  - reflexivity.
  - left. reflexivity.
  - reflexivity.
  - repeat constructor.
  - reflexivity.
  - split; [exact He | exact Hd].
Defined.

(** ** The path an Open operation resolves to *)

(** C10. For every name, an Open operation calls os.Open on exactly
    extractedDir + "/" + name and takes whatever it returns: no name is
    rejected or rewritten before the call.  With the name "../secret" and
    the root "/srv/old" the file opened lies outside the root, and a Copy
    after it sends that file's bytes to the sink. *)
Theorem Open_concatenates_path
        (fs : filesystem) (extractedDir : string)
        (name : string) (rest : list byte) (te : option error)
        (cur : option File) (dst : Writer) (proc : process) :
  len (bytes_of_string name) <= maxAlloc ->
  let path := (extractedDir ++ "/" ++ name)%string in
  let proc1 := match cur with
               | Some f => fst (File_Close (Some f) proc)
               | None => proc
               end in
  applyStep fs extractedDir
    (mkApply (mkReader (op_bytes DeltaOpOpen (len (bytes_of_string name))
                                 (bytes_of_string name) ++ rest) te)
             cur dst proc)
  = match os_Open fs path proc1 with
    | (proc2, inl err) => Return (mkApply (mkReader rest te) None dst proc2) err
    | (proc2, inr f) => Continue (mkApply (mkReader rest te) (Some f) dst proc2)
    end
  /\ trace (fst (os_Open fs path proc1)) = trace proc1 ++ [EvOpen path]
  /\ (forall data, fs path = Some data ->
        snd (os_Open fs path proc1) = inr (mkFile (nextfd proc1) data 0))
  /\ inside "/srv/old" ("/srv/old" ++ "/" ++ "../secret") = false
  /\ wbytes (res_dst (ApplyDelta zstd_stored (tree_fs example_tree) "/srv/old"
                        (mkReader (deltaHeader
                                   ++ op_bytes DeltaOpOpen 9 (bytes_of_string "../secret")
                                   ++ op_bytes DeltaOpCopy 3 []) None)
                        sink process0))
     = bytes_of_string "key".
Proof.
  intros Hlen path proc1. repeat split.
  - rewrite step_Open by assumption.
    now rewrite string_of_bytes_of_string.
  - unfold os_Open. destruct (fs path); reflexivity.
  - intros data Hdata. unfold os_Open. now rewrite Hdata.
Qed.

Lemma Open_concatenates_path_witness :
  applyStep (tree_fs example_tree) "/srv/old"
    (mkApply (mkReader (op_bytes DeltaOpOpen 9 (bytes_of_string "../secret")) None)
             None sink process0)
  = Continue (mkApply (mkReader [] None)
                      (Some (mkFile 3 (bytes_of_string "key") 0)) sink
                      (mkProcess 4 [3%nat] [EvOpen "/srv/old/../secret"])).
Proof.
  destruct (Open_concatenates_path (tree_fs example_tree) "/srv/old"
              "../secret" [] None None sink process0) as [H _].
  - vm_compute. discriminate.
  - rewrite app_nil_r in H. exact H.
Defined.

(** ** The handle of the current file at return *)

(** The deferred [maybeClose] received the nil handle: at return, the
    descriptor of the file the loop had open is still open. *)
Lemma ApplyDelta_keeps_current_open
      (zstd : codec) (fs : filesystem) (extractedDir : string)
      (delta : reader) (dst : Writer) (proc : process)
      (r : reader) (st : applyState) (err : option error) (f : File) :
  zNewReader zstd (mkReader (skipn 8 (rbytes delta)) (rerr delta)) = inr r ->
  firstn 8 (rbytes delta) = deltaHeader ->
  applyLoop_run fs extractedDir
    (mkApply r None dst (log EvZstdNewReader proc)) = (st, err) ->
  a_currentFile st = Some f ->
  In (f_fd f)
     (openfds (res_proc (ApplyDelta zstd fs extractedDir delta dst proc))).
Proof.
  intros Hz Hhdr Hrun Hcur. unfold ApplyDelta.
  rewrite ReadFull_header_ok by assumption.
  replace (bytes_Equal deltaHeader deltaHeader) with true
    by (symmetry; now apply bytes_Equal_true).
  cbn [negb]. rewrite Hz, Hrun.
  cbn [res_proc log openfds maybeClose File_Close fst].
  assert (Hinv : current_is_open
                   (fst (applyLoop_run fs extractedDir
                           (mkApply r None dst (log EvZstdNewReader proc))))).
  { apply applyLoop_run_invariant.
    - apply applyStep_current_is_open.
    - intros f0 H0. discriminate. }
  rewrite Hrun in Hinv. now apply Hinv.
Qed.

(** C3 fails on the code.  A delta holding the single operation
    Open("a.txt") is applied without error, and the descriptor that Open
    obtained is still open when ApplyDelta has returned: no Close was
    called on it. *)
Theorem ApplyDelta_leaks_last_handle :
  let res := ApplyDelta zstd_stored (tree_fs example_tree) "/srv/old"
               (mkReader (deltaHeader
                          ++ op_bytes DeltaOpOpen 5 (bytes_of_string "a.txt"))
                         None)
               sink process0 in
  res_err res = None
  /\ openfds (res_proc res) = [3%nat]
  /\ trace (res_proc res)
     = [EvZstdNewReader; EvOpen "/srv/old/a.txt"; EvZstdClose].
Proof. vm_compute. repeat split. Qed.

(** ** Elision of repeated calls *)

Lemma SetCurrentFile_sets (zstd : codec) (name : string) (d d1 : deltaWriter) :
  SetCurrentFile zstd name d = (d1, None) -> currentFile d1 = name.
Proof.
  unfold SetCurrentFile.
  destruct (String.eqb_spec (currentFile d) name) as [Heq | Hne]; cbn [negb].
  - intros H. inversion H; subst. reflexivity.
  - unfold andThen.
    destruct (FlushBuffer zstd d) as [dA [e|]]; [discriminate|].
    destruct (writeOp zstd DeltaOpOpen _ _ dA) as [dB [e|]]; [discriminate|].
    intros H. inversion H; subst. reflexivity.
Qed.

Lemma Seek_sets (zstd : codec) (pos : Z) (d d1 : deltaWriter) :
  Seek zstd pos d = (d1, None) -> currentPos d1 = pos.
Proof.
  unfold Seek.
  destruct (Z.eqb_spec (currentPos d) pos) as [Heq | Hne].
  - intros H. inversion H; subst. reflexivity.
  - unfold andThen.
    destruct (FlushBuffer zstd d) as [dA [e|]]; [discriminate|].
    destruct (writeOp zstd DeltaOpSeek pos None dA) as [dB [e|]];
      [discriminate|].
    intros H. inversion H; subst. reflexivity.
Qed.

Lemma SetCurrentFile_same (zstd : codec) (d : deltaWriter) :
  SetCurrentFile zstd (currentFile d) d = (d, None).
Proof. unfold SetCurrentFile. now rewrite String.eqb_refl. Qed.

Lemma Seek_same (zstd : codec) (d : deltaWriter) :
  Seek zstd (currentPos d) d = (d, None).
Proof. unfold Seek. now rewrite Z.eqb_refl. Qed.

(** C8. Calling [SetCurrentFile name] twice in a row, or [Seek pos]
    twice in a row, gives the same writer (the same bytes on the wire,
    the same buffer, file and position) and the same result as calling it
    once: after a first call that succeeded, the second call changes
    nothing and returns nil; a first call that failed has ended the
    pass. *)
Theorem elision_idempotent
        (zstd : codec) (d : deltaWriter) (name : string) (pos : Z) :
  (SetCurrentFile zstd name ;; SetCurrentFile zstd name)%verb d
  = SetCurrentFile zstd name d
  /\ (Seek zstd pos ;; Seek zstd pos)%verb d = Seek zstd pos d
  /\ (forall d1, SetCurrentFile zstd name d = (d1, None) ->
                 SetCurrentFile zstd name d1 = (d1, None))
  /\ (forall d1, Seek zstd pos d = (d1, None) ->
                 Seek zstd pos d1 = (d1, None)).
Proof.
  assert (Hset : forall d1, SetCurrentFile zstd name d = (d1, None) ->
                            SetCurrentFile zstd name d1 = (d1, None)).
  { intros d1 H. apply SetCurrentFile_sets in H. subst name.
    apply SetCurrentFile_same. }
  assert (Hseek : forall d1, Seek zstd pos d = (d1, None) ->
                             Seek zstd pos d1 = (d1, None)).
  { intros d1 H. apply Seek_sets in H. subst pos. apply Seek_same. }
  repeat split; try assumption; unfold andThen.
  - destruct (SetCurrentFile zstd name d) as [d1 [e|]] eqn:H; auto.
  - destruct (Seek zstd pos d) as [d1 [e|]] eqn:H; auto.
Qed.

Lemma elision_idempotent_witness :
  let d1 := open_writer 3 [1; 5; 97; 46; 116; 120; 116] [] "a.txt" 0 in
  let d2 := open_writer 3 [4; 7] [] "" 7 in
  SetCurrentFile zstd_stored "a.txt" d1 = (d1, None)
  /\ Seek zstd_stored 7 d2 = (d2, None).
Proof.
  destruct (elision_idempotent zstd_stored (open_writer 3 [] [] "" 0)
              "a.txt" 7) as (_ & _ & Hset & Hseek).
  split.
  - apply Hset. reflexivity.
  - apply Hseek. reflexivity.
Defined.

(** ** The first call of SetCurrentFile *)

(** C4 fails for the empty name: the current-file name of a new writer
    is the empty string, so [SetCurrentFile ""] on it is elided and no
    Open operation is written. *)
Lemma SetCurrentFile_empty_name_elided :
  let d0 := open_writer 3 [] [] "" 0 in
  newDeltaWriter zstd_stored sink 3 = (mkWriter deltaHeader None, inr d0)
  /\ SetCurrentFile zstd_stored "" d0 = (d0, None)
  /\ SetCurrentFile zstd_stored "" d0
     <> (open_writer 3 (op_bytes DeltaOpOpen 0 []) [] "" 0, None).
Proof. repeat split. discriminate. Qed.

(** C4, amended.  For every non-empty name, [SetCurrentFile name] on a
    newly created writer is not elided: with an encoder accepting the
    writes it puts Open(name) on the wire, makes name the current file
    and sets the position to 0.  On any open writer the call does nothing
    exactly when name is the current file, and otherwise flushes the
    pending buffer and writes Open(name). *)
Theorem SetCurrentFile_first_call
        (zstd : codec) (w w1 : Writer) (level : Z) (d0 : deltaWriter)
        (name : string) :
  (forall plain p, zWrite_err zstd plain p = None) ->
  newDeltaWriter zstd w level = (w1, inr d0) ->
  name <> ""%string ->
  let open_op := op_bytes DeltaOpOpen (uint64 (len (bytes_of_string name)))
                          (bytes_of_string name) in
  SetCurrentFile zstd name d0 = (open_writer level open_op [] name 0, None)
  /\ (forall lvl plain buf file pos,
        SetCurrentFile zstd name (open_writer lvl plain buf file pos)
        = if String.eqb file name
          then (open_writer lvl plain buf file pos, None)
          else (open_writer lvl (plain ++ flush_bytes buf ++ open_op) [] name 0,
                None)).
Proof.
  intros Hw Hnew Hne open_op. split.
  - unfold newDeltaWriter in Hnew.
    destruct (Write w deltaHeader) as [wA [e|]]; [discriminate|].
    destruct (zNewWriter_err zstd level); [discriminate|].
    inversion Hnew; subst.
    fold (open_writer level [] [] "" 0).
    rewrite SetCurrentFile_open by assumption.
    destruct (String.eqb_spec "" name) as [Heq | _]; [congruence|].
    reflexivity.
  - intros. now apply SetCurrentFile_open.
Qed.

Lemma SetCurrentFile_first_call_witness :
  SetCurrentFile zstd_stored "a.txt" (open_writer 3 [] [] "" 0)
  = (open_writer 3 [1; 5; 97; 46; 116; 120; 116] [] "a.txt" 0, None).
Proof.
  destruct (SetCurrentFile_first_call zstd_stored sink
              (mkWriter deltaHeader None) 3 (open_writer 3 [] [] "" 0) "a.txt")
    as [H _].
  - reflexivity.
  - reflexivity.
  - discriminate.
  - exact H.
Defined.

(** ** Close *)

(** C2 fails on the code: [Close] never calls [FlushBuffer].  Closing a
    writer whose buffer holds the byte 65 writes the frame of the empty
    stream; the Data operation for the pending byte is not in it, and the
    byte stays in the buffer. *)
Lemma Close_drops_pending_buffer :
  let d := open_writer 3 [] [65] "" 0 in
  let w := mkWriter deltaHeader None in
  Close zstd_stored d w
  = (mkDeltaWriter None [65] "" 0, mkWriter deltaHeader None, None)
  /\ wbytes (snd (fst (Close zstd_stored d w))) <> deltaHeader ++ data_op [65].
Proof. split; [reflexivity | discriminate]. Qed.

(** C2, amended.  [Close] on an open writer writes to the underlying
    writer the frame of the bytes the encoder has accepted so far, drops
    the encoder and leaves the pending buffer as it is: no Data operation
    is emitted for it.  The pending bytes reach the frame only when
    [FlushBuffer] is called before [Close].  A second [Close] does
    nothing and returns nil. *)
Theorem Close_finalizes_without_flush
        (zstd : codec) (level : Z) (plain buf : list byte)
        (file : string) (pos : Z) (w : Writer) :
  (forall plain p, zWrite_err zstd plain p = None) ->
  let d := open_writer level plain buf file pos in
  let closed := mkDeltaWriter None buf file pos in
  Close zstd d w
  = (closed, fst (Write w (zCompress zstd level plain)),
     snd (Write w (zCompress zstd level plain)))
  /\ (forall w1, Close zstd closed w1 = (closed, w1, None))
  /\ (let (d1, err) := FlushBuffer zstd d in
      err = None
      /\ Close zstd d1 w
         = (mkDeltaWriter None [] file pos,
            fst (Write w (zCompress zstd level (plain ++ flush_bytes buf))),
            snd (Write w (zCompress zstd level (plain ++ flush_bytes buf))))).
Proof.
  intros Hw d closed. repeat split.
  - unfold Close, d, open_writer. cbn.
    now destruct (Write w (zCompress zstd level plain)).
  - subst d. rewrite FlushBuffer_open by assumption. split; [reflexivity|].
    unfold Close, open_writer. cbn.
    now destruct (Write w (zCompress zstd level (plain ++ flush_bytes buf))).
Qed.

Lemma Close_finalizes_without_flush_witness :
  Close zstd_stored (open_writer 3 [2; 6] [65] "a.txt" 6)
        (mkWriter deltaHeader None)
  = (mkDeltaWriter None [65] "a.txt" 6,
     mkWriter (deltaHeader ++ [2; 6]) None, None).
Proof.
  destruct (Close_finalizes_without_flush zstd_stored 3 [2; 6] [65] "a.txt" 6
              (mkWriter deltaHeader None)) as [H _].
  - reflexivity.
  - exact H.
Defined.

(** ** Literal bytes and the chunk threshold *)

Lemma len_chunk_of_zeros : len chunk_of_zeros = deltaDataChunkSize.
Proof.
  unfold len, chunk_of_zeros. rewrite repeat_length.
  apply Z2Nat.id. unfold deltaDataChunkSize. lia.
Qed.

(** C9 fails on the code as far as the emitted payloads are concerned.
    After one [WriteContent] of the byte 65 on a new writer no Data
    operation has been written, and closing the writer does not write one
    either: the applied delta gives no byte at all.  After a write of
    exactly 4 MiB followed by a write of the byte 65, the one Data
    operation written holds the 4 MiB and the byte 65 is still pending. *)
Lemma literal_bytes_stay_pending :
  let d0 := open_writer 3 [] [] "" 0 in
  WriteContent zstd_stored [65] d0 = (open_writer 3 [] [65] "" 0, None)
  /\ encode (fun _ => None) "/old" zstd_stored false [WriteLiteral [65]] sink 3
     = (mkWriter deltaHeader None, None)
  /\ wbytes (res_dst (ApplyDelta zstd_stored (fun _ => None) "/old"
                        (mkReader deltaHeader None) sink process0))
     <> [65]
  /\ WriteContents zstd_stored [chunk_of_zeros; [65]] d0
     = (open_writer 3
          (op_bytes DeltaOpData deltaDataChunkSize chunk_of_zeros)
          [65] "" 0, None)
  /\ chunk_of_zeros <> chunk_of_zeros ++ [65].
Proof.
  assert (Hw : forall plain p, zWrite_err zstd_stored plain p = None)
    by reflexivity.
  split; [reflexivity|]. split; [reflexivity|]. split; [discriminate|].
  split.
  - cbn [WriteContents]. unfold andThen, done.
    rewrite WriteContent_open by exact Hw.
    change ([] ++ chunk_of_zeros) with chunk_of_zeros.
    rewrite len_chunk_of_zeros, Z.leb_refl.
    rewrite WriteContent_open by exact Hw.
    change (deltaDataChunkSize <=? len ([] ++ [65])) with false.
    unfold flush_bytes. rewrite len_chunk_of_zeros.
    reflexivity.
  - intros H. apply (f_equal (@List.length _)) in H.
    rewrite length_app in H. cbn [List.length] in H. lia.
Qed.

Lemma flush_bytes_chunk (b : list byte) :
  deltaDataChunkSize <= len b ->
  flush_bytes b = op_bytes DeltaOpData (uint64 (len b)) b.
Proof.
  intros H. unfold flush_bytes.
  destruct (Z.eqb_spec (len b) 0) as [H0 | _]; [|reflexivity].
  unfold deltaDataChunkSize in H. lia.
Qed.

Lemma WriteContents_chunks (zstd : codec) :
  (forall plain p, zWrite_err zstd plain p = None) ->
  forall (ws : list (list byte)) (level : Z) (plain buf : list byte)
         (file : string) (pos : Z),
    len buf < deltaDataChunkSize ->
    exists (chunks : list (list byte)) (buf' : list byte),
      WriteContents zstd ws (open_writer level plain buf file pos)
      = (open_writer level
           (plain ++ flat_map (fun c => op_bytes DeltaOpData (uint64 (len c)) c)
                              chunks)
           buf' file pos, None)
      /\ List.concat chunks ++ buf' = buf ++ List.concat ws
      /\ Forall (fun c => deltaDataChunkSize <= len c) chunks
      /\ len buf' < deltaDataChunkSize.
Proof.
  intros Hw ws.
  induction ws as [|w ws IH]; intros level plain buf file pos Hbuf.
  - exists [], buf. cbn. rewrite !app_nil_r. auto.
  - cbn [WriteContents]. unfold andThen.
    rewrite WriteContent_open by assumption.
    destruct (Z.leb_spec deltaDataChunkSize (len (buf ++ w))) as [Hge | Hlt].
    + destruct (IH level (plain ++ flush_bytes (buf ++ w)) [] file pos)
        as (chunks & buf' & Hrun & Hcat & Hall & Hlen).
      { unfold deltaDataChunkSize. cbn. lia. }
      exists ((buf ++ w) :: chunks), buf'. repeat split.
      * rewrite Hrun. cbn [flat_map].
        rewrite flush_bytes_chunk by assumption.
        now rewrite <- app_assoc.
      * cbn [List.concat]. rewrite <- !app_assoc. f_equal. f_equal.
        exact Hcat.
      * now constructor.
      * assumption.
    + destruct (IH level plain (buf ++ w) file pos Hlt)
        as (chunks & buf' & Hrun & Hcat & Hall & Hlen).
      exists chunks, buf'. repeat split; try assumption.
      cbn [List.concat]. now rewrite Hcat, <- app_assoc.
Qed.

(** C9, amended.  Each [WriteContent] appends its bytes to the pending
    buffer and, exactly when the buffer has then reached the 4 MiB
    threshold, writes one Data operation holding the whole buffer and
    empties it.  Two writes of chunk_size/2 + 1 bytes give no Data
    operation after the first and one Data operation, with all their
    bytes, after the second.  After any sequence of writes, the payloads
    of the Data operations written, followed by the bytes still pending
    in the buffer, are the bytes passed in call order; the pending bytes
    are fewer than the threshold. *)
Theorem WriteContent_chunk_boundary (zstd : codec) :
  (forall plain p, zWrite_err zstd plain p = None) ->
  (forall data level plain buf file pos,
      WriteContent zstd data (open_writer level plain buf file pos)
      = if deltaDataChunkSize <=? len (buf ++ data)
        then (open_writer level
                (plain ++ op_bytes DeltaOpData (uint64 (len (buf ++ data)))
                                   (buf ++ data))
                [] file pos, None)
        else (open_writer level plain (buf ++ data) file pos, None))
  /\ (forall d1 d2 level plain file pos,
        len d1 = deltaDataChunkSize / 2 + 1 ->
        len d2 = deltaDataChunkSize / 2 + 1 ->
        WriteContent zstd d1 (open_writer level plain [] file pos)
        = (open_writer level plain d1 file pos, None)
        /\ WriteContents zstd [d1; d2] (open_writer level plain [] file pos)
           = (open_writer level
                (plain ++ op_bytes DeltaOpData (uint64 (len (d1 ++ d2)))
                                   (d1 ++ d2))
                [] file pos, None))
  /\ (forall ws level plain buf file pos,
        len buf < deltaDataChunkSize ->
        exists chunks buf',
          WriteContents zstd ws (open_writer level plain buf file pos)
          = (open_writer level
               (plain ++ flat_map (fun c => op_bytes DeltaOpData
                                                     (uint64 (len c)) c)
                                  chunks)
               buf' file pos, None)
          /\ List.concat chunks ++ buf' = buf ++ List.concat ws
          /\ Forall (fun c => deltaDataChunkSize <= len c) chunks
          /\ len buf' < deltaDataChunkSize).
Proof.
  intros Hw.
  assert (Hcall : forall data level plain buf file pos,
      WriteContent zstd data (open_writer level plain buf file pos)
      = if deltaDataChunkSize <=? len (buf ++ data)
        then (open_writer level
                (plain ++ op_bytes DeltaOpData (uint64 (len (buf ++ data)))
                                   (buf ++ data))
                [] file pos, None)
        else (open_writer level plain (buf ++ data) file pos, None)).
  { intros. rewrite WriteContent_open by assumption.
    destruct (Z.leb_spec deltaDataChunkSize (len (buf ++ data))); [|reflexivity].
    now rewrite flush_bytes_chunk. }
  split; [exact Hcall|]. split.
  - intros d1 d2 level plain file pos H1 H2.
    change (deltaDataChunkSize / 2 + 1) with 2097153 in H1, H2.
    assert (E1 : WriteContent zstd d1 (open_writer level plain [] file pos)
                 = (open_writer level plain d1 file pos, None)).
    { rewrite Hcall. cbn [app].
      replace (deltaDataChunkSize <=? len d1) with false; [reflexivity|].
      symmetry. apply Z.leb_gt. unfold deltaDataChunkSize. lia. }
    split; [exact E1|].
    cbn [WriteContents]. unfold andThen, done. rewrite E1, Hcall.
    destruct (WriteContent zstd d2 (open_writer level plain d1 file pos))
      as [dA [e|]] eqn:E2; rewrite Hcall in E2;
      replace (deltaDataChunkSize <=? len (d1 ++ d2)) with true in *
        by (symmetry; apply Z.leb_le; rewrite len_app;
            unfold deltaDataChunkSize; lia);
      inversion E2; subst; reflexivity.
  - intros. now apply WriteContents_chunks.
Qed.

Lemma WriteContent_chunk_boundary_witness :
  exists chunks buf',
    WriteContents zstd_stored [[1; 2]; [3]] (open_writer 3 [] [] "" 0)
    = (open_writer 3
         ([] ++ flat_map (fun c => op_bytes DeltaOpData (uint64 (len c)) c)
                         chunks)
         buf' "" 0, None)
    /\ List.concat chunks ++ buf' = [] ++ List.concat [[1; 2]; [3]]
    /\ Forall (fun c => deltaDataChunkSize <= len c) chunks
    /\ len buf' < deltaDataChunkSize.
Proof.
  destruct (WriteContent_chunk_boundary zstd_stored) as (_ & _ & H).
  - reflexivity.
  - apply H. reflexivity.
Defined.

(** ** Round trip *)

(** C1 fails on the code: [Close] does not flush, so literal bytes still
    pending when the writer is closed are lost.  The plan of the
    end-to-end scenario stands for "hello earthnew"; encoded and closed,
    then applied, it gives "hello earth". *)
Lemma encode_close_loses_pending_literal :
  let fs := tree_fs example_tree in
  let delta :=
    fst (encode fs "/srv/old" zstd_stored false example_plan sink 3) in
  let res := ApplyDelta zstd_stored fs "/srv/old"
                        (mkReader (wbytes delta) None) sink process0 in
  option_map pl_out (plan_run fs "/srv/old" plan0 example_plan)
  = Some (bytes_of_string "hello earthnew")
  /\ res_err res = None
  /\ wbytes (res_dst res) = bytes_of_string "hello earth"
  /\ wbytes (res_dst res) <> bytes_of_string "hello earthnew".
Proof. vm_compute. repeat split. discriminate. Qed.

(** C1, amended.  Let the calls [cs] be a valid plan against the old
    tree: every name set is non-empty and names a file of the tree, every
    seek, copy and add-delta comes after a file was set, every copy and
    add-delta stays within the file, every add-delta hands over
    [new - old (mod 256)] against the old bytes at the position.  With a
    codec that accepts the writes and decodes its own frames, encoding
    [cs], calling [FlushBuffer] and then [Close] succeeds and leaves the
    header and one frame in the delta; [ApplyDelta] on that delta against
    the same tree succeeds and appends to the sink exactly the bytes the
    plan stands for. *)
Theorem encode_apply_roundtrip
        (zstd : codec) (fs : filesystem) (extractedDir : string)
        (cs : list call) (level : Z) (s : planState)
        (dst : Writer) (proc : process) :
  codec_sound zstd ->
  plan_run fs extractedDir plan0 cs = Some s ->
  wroom dst = None ->
  exists frame,
    encode fs extractedDir zstd true cs sink level
    = (mkWriter (deltaHeader ++ frame) None, None)
    /\ res_err (ApplyDelta zstd fs extractedDir
                           (mkReader (deltaHeader ++ frame) None) dst proc)
       = None
    /\ wbytes (res_dst (ApplyDelta zstd fs extractedDir
                          (mkReader (deltaHeader ++ frame) None) dst proc))
       = wbytes dst ++ pl_out s.
Proof.
  intros [Hw Hnew Hrt] Hplan Hroom.
  destruct (sim_run zstd fs extractedDir dst (log EvZstdNewReader proc) Hw cs
              plan0 s (open_writer level [] [] "" 0)
              (sim_start fs extractedDir dst _ level Hroom) Hplan)
    as (d1 & Hd1 & Hsim).
  destruct (sim_flush zstd fs extractedDir dst _ Hw s d1 Hsim)
    as (lvl & plain & cur & proc' & Hflush & Hdec).
  exists (zCompress zstd lvl plain).
  assert (Henc : encode fs extractedDir zstd true cs sink level
                 = (mkWriter (deltaHeader ++ zCompress zstd lvl plain) None, None)).
  { unfold encode, newDeltaWriter. cbn [Write sink wroom wbytes app].
    rewrite Hnew. fold (open_writer level [] [] "" 0).
    unfold andThen. rewrite Hd1, Hflush.
    unfold Close, open_writer. cbn. reflexivity. }
  split; [exact Henc|].
  unfold ApplyDelta.
  rewrite ReadFull_header_ok by reflexivity.
  replace (bytes_Equal deltaHeader deltaHeader) with true
    by (symmetry; now apply bytes_Equal_true).
  cbn [negb rbytes rerr app skipn deltaHeader].
  rewrite Hrt.
  rewrite <- (app_nil_r plain). rewrite Hdec.
  erewrite applyLoop_run_Break by apply step_end.
  cbn. auto.
Qed.

Lemma encode_apply_roundtrip_witness :
  exists frame,
    encode (tree_fs example_tree) "/srv/old" zstd_stored true example_plan sink 3
    = (mkWriter (deltaHeader ++ frame) None, None)
    /\ res_err (ApplyDelta zstd_stored (tree_fs example_tree) "/srv/old"
                           (mkReader (deltaHeader ++ frame) None) sink process0)
       = None
    /\ wbytes (res_dst (ApplyDelta zstd_stored (tree_fs example_tree) "/srv/old"
                          (mkReader (deltaHeader ++ frame) None) sink process0))
       = wbytes sink ++ bytes_of_string "hello earthnew".
Proof.
  apply (encode_apply_roundtrip zstd_stored (tree_fs example_tree) "/srv/old"
           example_plan 3
           (mkPlan (Some "a.txt"%string) 11 (bytes_of_string "hello earthnew"))
           sink process0).
  - constructor; reflexivity.
  - vm_compute. reflexivity.
  - reflexivity.
Defined.

(** * Further properties of the writer and the applier *)

(** ** ApplyDelta past the header *)

(** With the magic in front and a reader from the codec, the result of
    [ApplyDelta] is that of the loop. *)
Lemma ApplyDelta_frame
      (zstd : codec) (fs : filesystem) (extractedDir : string)
      (frame : list byte) (derr : option error) (r : reader)
      (dst : Writer) (proc : process) :
  zNewReader zstd (mkReader frame derr) = inr r ->
  ApplyDelta zstd fs extractedDir (mkReader (deltaHeader ++ frame) derr)
             dst proc
  = let res := applyLoop_run fs extractedDir
                 (mkApply r None dst (log EvZstdNewReader proc)) in
    mkResult (snd res) (a_dst (fst res)) (log EvZstdClose (a_proc (fst res))).
Proof.
  intros Hz. unfold ApplyDelta.
  rewrite ReadFull_header_ok by reflexivity.
  replace (bytes_Equal deltaHeader deltaHeader) with true
    by (symmetry; now apply bytes_Equal_true).
  cbn [negb rbytes rerr app skipn deltaHeader]. rewrite Hz.
  now destruct (applyLoop_run fs extractedDir _) as [st err].
Qed.

(** ** How the stream may end *)

(** X1. A decoded stream made of Data operations only is applied to its
    end: the payloads go to the sink in order, and the result is nil when
    the stream ends cleanly (also when it holds no operation at all),
    and the error of the decompressor when it ends with one. *)
Theorem stream_end_at_operation_boundary
        (zstd : codec) (fs : filesystem) (extractedDir : string)
        (frame : list byte) (derr : option error)
        (chunks : list (list byte)) (te : option error)
        (dst : Writer) (proc : process) :
  zNewReader zstd (mkReader frame derr)
  = inr (mkReader (flat_map data_op chunks) te) ->
  Forall (fun c => len c < 2 ^ 63) chunks ->
  wroom dst = None ->
  let res := ApplyDelta zstd fs extractedDir
                        (mkReader (deltaHeader ++ frame) derr) dst proc in
  res_err res = match te with
                | None => None
                | Some e => if error_eqb_EOF e then None else Some e
                end
  /\ wbytes (res_dst res) = wbytes dst ++ List.concat chunks
  /\ openfds (res_proc res) = openfds proc.
Proof.
  intros Hz Hall Hroom res. subst res.
  rewrite (ApplyDelta_frame _ _ _ _ _ _ _ _ Hz).
  rewrite <- (app_nil_r (flat_map data_op chunks)).
  rewrite applyLoop_run_data by assumption.
  destruct te as [e|].
  - destruct (error_eqb_EOF e) eqn:He.
    + erewrite applyLoop_run_Break
        by (unfold applyStep, ReadByte, rend; cbn; now rewrite He).
      cbn. auto.
    + erewrite applyLoop_run_Return
        by (unfold applyStep, ReadByte, rend; cbn; now rewrite He).
      cbn. auto.
  - erewrite applyLoop_run_Break by apply step_end. cbn. auto.
Qed.

Lemma stream_end_at_operation_boundary_witness :
  let res := ApplyDelta
               (mkCodec (fun _ p => p) (fun _ _ => None) (fun _ => None)
                        (fun r => inr (mkReader (rbytes r) (Some (ErrZstd 1)))))
               (fun _ => None) "/old"
               (mkReader (deltaHeader ++ [0; 2; 104; 105]) None)
               sink process0 in
  res_err res = Some (ErrZstd 1) /\ wbytes (res_dst res) = [104; 105].
Proof.
  destruct (stream_end_at_operation_boundary
              (mkCodec (fun _ p => p) (fun _ _ => None) (fun _ => None)
                       (fun r => inr (mkReader (rbytes r) (Some (ErrZstd 1)))))
              (fun _ => None) "/old" [0; 2; 104; 105] None [[104; 105]]
              (Some (ErrZstd 1)) sink process0) as (He & Hd & _).
  - reflexivity.
  - repeat constructor.
  - reflexivity.
  - split; [exact He | exact Hd].
Defined.



(** X3. A stream shorter than the 8-byte header is rejected by the read
    of the header, whatever its bytes are (a prefix of the magic
    included): io.EOF when it is empty, io.ErrUnexpectedEOF otherwise;
    the sink and the process are untouched. *)
Theorem short_header_rejected
        (zstd : codec) (fs : filesystem) (extractedDir : string)
        (bytes : list byte) (dst : Writer) (proc : process) :
  len bytes < 8 ->
  ApplyDelta zstd fs extractedDir (mkReader bytes None) dst proc
  = mkResult (Some (match bytes with [] => EOF | _ => ErrUnexpectedEOF end))
             dst proc.
Proof.
  intros Hlen. unfold ApplyDelta, ReadFull. cbn [rbytes rerr].
  change (len deltaHeader) with 8.
  now replace (8 <=? len bytes) with false by (symmetry; apply Z.leb_gt; lia).
Qed.

Lemma short_header_rejected_witness :
  ApplyDelta zstd_stored (fun _ => None) "/old"
             (mkReader [116; 97; 114; 100; 102; 49; 10] None) sink process0
  = mkResult (Some ErrUnexpectedEOF) sink process0.
Proof.
  apply (short_header_rejected zstd_stored (fun _ => None) "/old"
           [116; 97; 114; 100; 102; 49; 10] sink process0).
  reflexivity.
Defined.

(** ** Operations the applier cannot carry out *)

Lemma step_unknown_op (fs : filesystem) (extractedDir : string)
      (op size : Z) (r2 : reader) (b : list byte) (te : option error)
      (cur : option File) (dst : Writer) (proc : process) :
  op < 0 \/ 4 < op ->
  ReadUvarint (mkReader b te) = inr (size, r2) ->
  applyStep fs extractedDir (mkApply (mkReader (op :: b) te) cur dst proc)
  = Return (mkApply (mkReader (op :: b) te) cur dst proc) (ErrUnexpectedOp op).
Proof.
  intros Hop Hsz. unfold applyStep, ReadByte.
  cbn [a_r a_dst a_currentFile a_proc rbytes rerr]. rewrite Hsz.
  unfold DeltaOpData, DeltaOpOpen, DeltaOpCopy, DeltaOpAddData, DeltaOpSeek.
  repeat match goal with
         | |- context [op =? ?k] =>
             replace (op =? k) with false by (symmetry; apply Z.eqb_neq; lia)
         end.
  reflexivity.
Qed.

(** X4. A tag byte other than 0..4, once its varint is read, makes
    ApplyDelta fail with "Unexpected delta op"; the operation is not
    skipped, nothing is written for it and no file is opened. *)
Theorem unknown_op_rejected
        (zstd : codec) (fs : filesystem) (extractedDir : string)
        (frame : list byte) (derr : option error)
        (chunks : list (list byte)) (op size : Z) (b : list byte)
        (te : option error) (r2 : reader)
        (dst : Writer) (proc : process) :
  zNewReader zstd (mkReader frame derr)
  = inr (mkReader (flat_map data_op chunks ++ op :: b) te) ->
  op < 0 \/ 4 < op ->
  ReadUvarint (mkReader b te) = inr (size, r2) ->
  Forall (fun c => len c < 2 ^ 63) chunks ->
  wroom dst = None ->
  let res := ApplyDelta zstd fs extractedDir
                        (mkReader (deltaHeader ++ frame) derr) dst proc in
  res_err res = Some (ErrUnexpectedOp op)
  /\ wbytes (res_dst res) = wbytes dst ++ List.concat chunks
  /\ openfds (res_proc res) = openfds proc.
Proof.
  intros Hz Hop Hsz Hall Hroom res. subst res.
  rewrite (ApplyDelta_frame _ _ _ _ _ _ _ _ Hz).
  rewrite applyLoop_run_data by assumption.
  erewrite applyLoop_run_Return by (eapply step_unknown_op; eassumption).
  cbn. auto.
Qed.

Lemma unknown_op_rejected_witness :
  let res := ApplyDelta zstd_stored (fun _ => None) "/old"
               (mkReader (deltaHeader ++ [0; 1; 65; 5; 0]) None)
               sink process0 in
  res_err res = Some (ErrUnexpectedOp 5) /\ wbytes (res_dst res) = [65].
Proof.
  destruct (unknown_op_rejected zstd_stored (fun _ => None) "/old"
              [0; 1; 65; 5; 0] None [[65]] 5 0 [0] None (mkReader [] None)
              sink process0) as (He & Hd & _).
  - reflexivity.
  - right. lia.
  - reflexivity.
  - repeat constructor.
  - reflexivity.
  - split; [exact He | exact Hd].
Defined.

(** [io.CopyN] from a source that has fewer than [n] bytes. *)
Lemma CopyN_short (dst : Writer) (src : reader) (n : Z) :
  wroom dst = None -> len (rbytes src) < n ->
  CopyN dst src n
  = (mkWriter (wbytes dst ++ rbytes src) None, len (rbytes src),
     Some (rend src)).
Proof.
  intros Hroom Hn. pose proof (len_nonneg (rbytes src)) as H0.
  unfold CopyN.
  replace (n <=? 0) with false by (symmetry; apply Z.leb_gt; lia).
  rewrite Z.min_r by lia. rewrite Write_unbounded by assumption.
  rewrite to_nat_len, firstn_all.
  now replace (len (rbytes src) <? n) with true
    by (symmetry; apply Z.ltb_lt; lia).
Qed.

(** X5. A Data operation whose payload is cut short is not all or
    nothing: the bytes that are there are written to the sink, then
    ApplyDelta fails, with io.EOF on a clean end of the stream and with
    the error of the decompressor otherwise. *)
Theorem truncated_Data_writes_what_is_there
        (zstd : codec) (fs : filesystem) (extractedDir : string)
        (frame : list byte) (derr : option error)
        (chunks : list (list byte)) (n : Z) (avail : list byte)
        (te : option error) (dst : Writer) (proc : process) :
  zNewReader zstd (mkReader frame derr)
  = inr (mkReader (flat_map data_op chunks ++ op_bytes DeltaOpData n avail) te) ->
  len avail < n < 2 ^ 63 ->
  Forall (fun c => len c < 2 ^ 63) chunks ->
  wroom dst = None ->
  let res := ApplyDelta zstd fs extractedDir
                        (mkReader (deltaHeader ++ frame) derr) dst proc in
  res_err res = Some (match te with Some e => e | None => EOF end)
  /\ wbytes (res_dst res) = wbytes dst ++ List.concat chunks ++ avail.
Proof.
  intros Hz Hn Hall Hroom res. subst res.
  pose proof (len_nonneg avail) as H0.
  rewrite (ApplyDelta_frame _ _ _ _ _ _ _ _ Hz).
  rewrite applyLoop_run_data by assumption.
  erewrite applyLoop_run_Return.
  2:{ rewrite <- (app_nil_r (op_bytes DeltaOpData n avail)).
      unfold applyStep. cbn [a_r a_dst a_currentFile a_proc].
      rewrite read_op_tag, ReadUvarint_PutUvarint by lia.
      change (uint8 DeltaOpData =? DeltaOpData) with true. cbn match.
      rewrite int64_small by lia. rewrite app_nil_r.
      rewrite CopyN_short by (cbn; auto; lia).
      reflexivity. }
  cbn. split; [reflexivity | now rewrite app_assoc].
Qed.

Lemma truncated_Data_writes_what_is_there_witness :
  let res := ApplyDelta zstd_stored (fun _ => None) "/old"
               (mkReader (deltaHeader ++ [0; 5; 104; 105]) None)
               sink process0 in
  res_err res = Some EOF /\ wbytes (res_dst res) = [104; 105].
Proof.
  apply (truncated_Data_writes_what_is_there zstd_stored (fun _ => None)
           "/old" [0; 5; 104; 105] None [] 5 [104; 105] None sink process0).
  - reflexivity.
  - cbn. lia.
  - constructor.
  - reflexivity.
Defined.

(** X6. A Copy that asks for more bytes than the current file has left
    writes the bytes that are left and then fails with io.EOF. *)
Theorem Copy_past_end_of_file
        (zstd : codec) (fs : filesystem) (extractedDir : string)
        (frame : list byte) (derr : option error)
        (name : string) (data : list byte) (n : Z) (rest : list byte)
        (te : option error) (dst : Writer) (proc : process) :
  zNewReader zstd (mkReader frame derr)
  = inr (mkReader (op_bytes DeltaOpOpen (len (bytes_of_string name))
                            (bytes_of_string name)
                   ++ op_bytes DeltaOpCopy n [] ++ rest) te) ->
  fs (extractedDir ++ "/" ++ name)%string = Some data ->
  len (bytes_of_string name) <= maxAlloc ->
  len data < n < 2 ^ 63 ->
  wroom dst = None ->
  let res := ApplyDelta zstd fs extractedDir
                        (mkReader (deltaHeader ++ frame) derr) dst proc in
  res_err res = Some EOF
  /\ wbytes (res_dst res) = wbytes dst ++ data.
Proof.
  intros Hz Hfs Hname Hn Hroom res. subst res.
  pose proof (len_nonneg data) as H0.
  rewrite (ApplyDelta_frame _ _ _ _ _ _ _ _ Hz).
  erewrite applyLoop_run_Continue.
  2:{ rewrite step_Open by assumption.
      rewrite string_of_bytes_of_string. unfold os_Open. rewrite Hfs.
      reflexivity. }
  erewrite applyLoop_run_Return.
  2:{ rewrite step_Copy by lia. rewrite int64_small by lia.
      rewrite CopyN_short by (cbn; auto; lia).
      reflexivity. }
  cbn. auto.
Qed.

Lemma Copy_past_end_of_file_witness :
  let res := ApplyDelta zstd_stored (tree_fs example_tree) "/srv/old"
               (mkReader (deltaHeader
                          ++ op_bytes DeltaOpOpen 5 (bytes_of_string "a.txt")
                          ++ op_bytes DeltaOpCopy 12 [] ++ []) None)
               sink process0 in
  res_err res = Some EOF
  /\ wbytes (res_dst res) = wbytes sink ++ bytes_of_string "hello world".
Proof.
  apply (Copy_past_end_of_file zstd_stored (tree_fs example_tree) "/srv/old"
           (op_bytes DeltaOpOpen 5 (bytes_of_string "a.txt")
            ++ op_bytes DeltaOpCopy 12 [] ++ [])
           None "a.txt" (bytes_of_string "hello world") 12 [] None
           sink process0).
  - reflexivity.
  - reflexivity.
  - vm_compute. discriminate.
  - vm_compute. split; reflexivity.
  - reflexivity.
Defined.

(** X7. AddData, unlike Copy, writes nothing when the current file is
    too short: with fewer than N bytes left at the cursor the pass
    returns io.EOF (nothing left) or io.ErrUnexpectedEOF (some bytes
    left) and the sink is as it was. *)
Theorem AddData_short_file_writes_nothing
        (fs : filesystem) (extractedDir : string)
        (payload rest : list byte) (te : option error)
        (f : File) (dst : Writer) (proc : process) :
  len payload <= maxAlloc ->
  0 <= f_pos f <= len (f_data f) ->
  len (f_data f) < f_pos f + len payload ->
  let res := applyLoop_run fs extractedDir
               (mkApply
                  (mkReader (op_bytes DeltaOpAddData (len payload) payload
                             ++ rest) te)
                  (Some f) dst proc) in
  snd res = Some (if f_pos f =? len (f_data f) then EOF else ErrUnexpectedEOF)
  /\ a_dst (fst res) = dst.
Proof.
  intros Hmax Hpos Hshort res. subst res.
  set (st := mkApply _ (Some f) dst proc).
  assert (Hstep : applyStep fs extractedDir st
                  = Return st (if f_pos f =? len (f_data f)
                               then EOF else ErrUnexpectedEOF));
    [|rewrite (applyLoop_run_Return _ _ _ _ _ Hstep); split; reflexivity].
  subst st.
  rewrite step_AddData by assumption.
  unfold File_ReadFull, ReadFull. rewrite File_reader_len by assumption.
  replace (len payload <=? len (f_data f) - f_pos f) with false
    by (symmetry; apply Z.leb_gt; lia).
  cbn [rerr File_reader].
  destruct (Z.eqb_spec (f_pos f) (len (f_data f))) as [Heq | Hne].
  - replace (rbytes (File_reader f)) with (@nil byte); [reflexivity|].
    symmetry. apply len_nil_iff. rewrite File_reader_len by assumption. lia.
  - destruct (rbytes (File_reader f)) eqn:Hr; [|reflexivity].
    exfalso. apply (f_equal (@len byte)) in Hr.
    rewrite File_reader_len in Hr by assumption. cbn in Hr. lia.
Qed.

Lemma AddData_short_file_writes_nothing_witness :
  let res := applyLoop_run (fun _ => None) "/old"
               (mkApply (mkReader [3; 3; 5; 9; 1] None)
                        (Some (mkFile 3 [10; 250] 0)) sink process0) in
  snd res = Some ErrUnexpectedEOF /\ a_dst (fst res) = sink.
Proof.
  apply (AddData_short_file_writes_nothing (fun _ => None) "/old" [5; 9; 1] []
           None (mkFile 3 [10; 250] 0) sink process0).
  - vm_compute. discriminate.
  - vm_compute. split; discriminate.
  - reflexivity.
Defined.

(** X8. Sizes are converted with [int64(size)].  A Data or Copy
    operation whose size is 2^63 or more therefore copies nothing and
    reports no error: the loop goes on with the bytes after the varint
    (what was meant as the payload of such a Data operation is read as
    operations).  A Seek with such an offset fails at the negative
    offset. *)
Theorem sizes_with_top_bit
        (fs : filesystem) (extractedDir : string)
        (size : Z) (rest : list byte) (te : option error)
        (f : File) (cur : option File) (dst : Writer) (proc : process) :
  2 ^ 63 <= size < 2 ^ 64 ->
  applyStep fs extractedDir
    (mkApply (mkReader (op_bytes DeltaOpData size [] ++ rest) te) cur dst proc)
  = Continue (mkApply (mkReader rest te) cur dst proc)
  /\ applyStep fs extractedDir
       (mkApply (mkReader (op_bytes DeltaOpCopy size [] ++ rest) te)
                (Some f) dst proc)
     = Continue (mkApply (mkReader rest te)
                         (Some (mkFile (f_fd f) (f_data f) (f_pos f + 0)))
                         dst proc)
  /\ snd (applyLoop_run fs extractedDir
            (mkApply (mkReader (op_bytes DeltaOpSeek size [] ++ rest) te)
                     (Some f) dst proc))
     = Some (ErrSeek (size - 2 ^ 64)).
Proof.
  intros Hsize.
  assert (Hi : int64 size = size - 2 ^ 64).
  { unfold int64.
    now replace (size <? 2 ^ 63) with false
      by (symmetry; apply Z.ltb_ge; lia). }
  assert (Hneg : (size - 2 ^ 64 <=? 0) = true) by (apply Z.leb_le; lia).
  repeat split.
  - unfold applyStep. cbn [a_r a_dst a_currentFile a_proc].
    rewrite read_op_tag, ReadUvarint_PutUvarint by lia.
    change (uint8 DeltaOpData =? DeltaOpData) with true. cbn match.
    rewrite Hi. unfold CopyN. rewrite Hneg. reflexivity.
  - rewrite step_Copy by lia. rewrite Hi. unfold CopyN. rewrite Hneg.
    reflexivity.
  - erewrite applyLoop_run_Return; [reflexivity|].
    rewrite step_Seek by lia. rewrite Hi. unfold File_Seek.
    replace (size - 2 ^ 64 <? 0) with true
      by (symmetry; apply Z.ltb_lt; lia).
    reflexivity.
Qed.

Lemma sizes_with_top_bit_witness :
  applyStep (fun _ => None) "/old"
    (mkApply (mkReader (op_bytes DeltaOpData (2 ^ 63) [] ++ [65; 66]) None)
             None sink process0)
  = Continue (mkApply (mkReader [65; 66] None) None sink process0).
Proof.
  destruct (sizes_with_top_bit (fun _ => None) "/old" (2 ^ 63) [65; 66] None
              (mkFile 3 [] 0) None sink process0) as [H _].
  - vm_compute. split; [discriminate | reflexivity].
  - exact H.
Defined.

(** ** The writer: headers, elision, flushing *)

Lemma PutUvarint_loop_stable (k : nat) :
  forall (x : Z) (n : nat),
    0 <= x < 2 ^ (7 * (Z.of_nat k + 1)) -> (k <= n)%nat ->
    PutUvarint_loop n x = PutUvarint_loop k x.
Proof.
  induction k as [|k IH]; intros x n Hx Hn.
  - change (2 ^ (7 * (Z.of_nat 0 + 1))) with 128 in Hx.
    destruct n as [|n]; cbn; [reflexivity|].
    now replace (128 <=? x) with false by (symmetry; apply Z.leb_gt; lia).
  - destruct n as [|n]; [lia|]. cbn [PutUvarint_loop].
    destruct (128 <=? x); [|reflexivity].
    f_equal. apply IH; [|lia].
    rewrite Z.shiftr_div_pow2 by lia. split.
    + apply Z.div_pos; lia.
    + apply Z.div_lt_upper_bound; [lia|].
      rewrite <- Z.pow_add_r by lia.
      replace (7 + 7 * (Z.of_nat k + 1)) with (7 * (Z.of_nat (S k) + 1)) by lia.
      lia.
Qed.

Lemma PutUvarint_loop_length (k : nat) :
  forall x, (1 <= List.length (PutUvarint_loop k x) <= S k)%nat.
Proof.
  induction k as [|k IH]; intros x; cbn [PutUvarint_loop].
  - cbn. lia.
  - destruct (128 <=? x); cbn [List.length]; [|lia].
    specialize (IH (Z.shiftr x 7)). lia.
Qed.

(** X9. For a 64-bit size the loop of PutUvarint ends by its own test
    within nine rounds (a larger round budget gives the same bytes), so
    the varint has between 1 and 10 bytes and the buffer of
    1 + MaxVarintLen64 bytes that writeOp allocates holds the tag and
    the varint. *)
Theorem writeOp_header_fits (op size : Z) (n : nat) :
  0 <= size < 2 ^ 64 ->
  (9 <= n)%nat ->
  PutUvarint_loop n size = PutUvarint size
  /\ (1 <= List.length (PutUvarint size) <= MaxVarintLen64)%nat
  /\ (List.length (uint8 op :: PutUvarint size) <= 1 + MaxVarintLen64)%nat.
Proof.
  intros Hsize Hn. split; [|split].
  - apply PutUvarint_loop_stable; [|assumption].
    change (2 ^ (7 * (Z.of_nat 9 + 1))) with (2 ^ 70). lia.
  - apply (PutUvarint_loop_length 9).
  - pose proof (PutUvarint_loop_length 9 size) as H.
    change (List.length (uint8 op :: PutUvarint size))
      with (S (List.length (PutUvarint_loop 9 size))).
    change MaxVarintLen64 with 10%nat. lia.
Qed.

Lemma writeOp_header_fits_witness :
  PutUvarint_loop 64 (2 ^ 64 - 1) = PutUvarint (2 ^ 64 - 1).
Proof.
  destruct (writeOp_header_fits 0 (2 ^ 64 - 1) 64) as [H _].
  - vm_compute. split; [discriminate | reflexivity].
  - repeat constructor.
  - exact H.
Defined.

(** X10. What writeOp puts on the wire is read back by the applier: the
    tag byte by ReadByte, the size by ReadUvarint, which leaves the
    reader at the first byte of the payload. *)
Theorem writeOp_header_read_back
        (zstd : codec) (op size : Z) (data : option (list byte))
        (level : Z) (plain buf : list byte) (file : string) (pos : Z)
        (rest : list byte) (te : option error) :
  (forall plain p, zWrite_err zstd plain p = None) ->
  0 <= op < 256 ->
  0 <= size < 2 ^ 64 ->
  let payload := match data with Some p => p | None => [] end in
  exists wire,
    writeOp zstd op size data (open_writer level plain buf file pos)
    = (open_writer level (plain ++ wire) buf file pos, None)
    /\ ReadByte (mkReader (wire ++ rest) te)
       = inr (op, mkReader (PutUvarint size ++ payload ++ rest) te)
    /\ ReadUvarint (mkReader (PutUvarint size ++ payload ++ rest) te)
       = inr (size, mkReader (payload ++ rest) te).
Proof.
  intros Hw Hop Hsize payload.
  exists (op_bytes op size payload). split; [|split].
  - now rewrite writeOp_open.
  - rewrite read_op_tag. unfold uint8. now rewrite Z.mod_small by lia.
  - now apply ReadUvarint_PutUvarint.
Qed.

Lemma writeOp_header_read_back_witness :
  exists wire,
    writeOp zstd_stored 2 300 None (open_writer 3 [] [] "a.txt" 0)
    = (open_writer 3 ([] ++ wire) [] "a.txt" 0, None)
    /\ ReadByte (mkReader (wire ++ [7]) None)
       = inr (2, mkReader (PutUvarint 300 ++ [] ++ [7]) None)
    /\ ReadUvarint (mkReader (PutUvarint 300 ++ [] ++ [7]) None)
       = inr (300, mkReader ([] ++ [7]) None).
Proof.
  apply (writeOp_header_read_back zstd_stored 2 300 None 3 [] [] "a.txt" 0
           [7] None).
  - reflexivity.
  - lia.
  - lia.
Defined.



Lemma flush_bytes_nil : flush_bytes [] = [].
Proof. reflexivity. Qed.

(** X12. Copies that follow one another in the old file need one Seek at
    most: after [CopyFileAt offset s1] the tracked position is
    [offset + s1], so [CopyFileAt (offset + s1) s2] writes its Copy
    operation only; the first call writes a Seek only when the writer
    was not at [offset] already. *)
Theorem contiguous_copies_seek_once
        (zstd : codec) (offset s1 s2 : Z)
        (level : Z) (plain buf : list byte) (file : string) (pos : Z) :
  (forall plain p, zWrite_err zstd plain p = None) ->
  0 <= offset + s1 < 2 ^ 64 ->
  (CopyFileAt zstd offset s1 ;; CopyFileAt zstd (offset + s1) s2)%verb
    (open_writer level plain buf file pos)
  = (open_writer level
       (plain ++ flush_bytes buf
              ++ (if pos =? offset then [] else op_bytes DeltaOpSeek offset [])
              ++ op_bytes DeltaOpCopy s1 []
              ++ op_bytes DeltaOpCopy s2 [])
       [] file (uint64 (offset + s1 + s2)), None).
Proof.
  intros Hw Hsum. unfold CopyFileAt, andThen.
  rewrite Seek_open by assumption.
  destruct (Z.eqb_spec pos offset) as [Heq | Hne].
  - subst pos. rewrite CopyFile_open by assumption.
    rewrite uint64_small by lia.
    rewrite Seek_open by assumption. rewrite Z.eqb_refl.
    rewrite CopyFile_open by assumption.
    rewrite flush_bytes_nil. cbn [app].
    now rewrite <- !app_assoc.
  - rewrite CopyFile_open by assumption.
    rewrite uint64_small by lia.
    rewrite Seek_open by assumption. rewrite Z.eqb_refl.
    rewrite CopyFile_open by assumption.
    rewrite flush_bytes_nil. cbn [app].
    now rewrite <- !app_assoc.
Qed.

Lemma contiguous_copies_seek_once_witness :
  (CopyFileAt zstd_stored 4 6 ;; CopyFileAt zstd_stored (4 + 6) 5)%verb
    (open_writer 3 [] [] "a.txt" 0)
  = (open_writer 3 [4; 4; 2; 6; 2; 5] [] "a.txt" 15, None).
Proof.
  rewrite (contiguous_copies_seek_once zstd_stored 4 6 5 3 [] [] "a.txt" 0).
  - reflexivity.
  - reflexivity.
  - lia.
Defined.

(** X13. [WriteOldFile name size] for a file that is not the current
    one writes the pending literals, Open(name) and Copy(size), and no
    Seek: the position of a newly set file is 0.  For the current file
    it writes a Seek(0) only when the tracked position is not 0. *)
Theorem WriteOldFile_wire
        (zstd : codec) (name : string) (size : Z)
        (level : Z) (plain buf : list byte) (file : string) (pos : Z) :
  (forall plain p, zWrite_err zstd plain p = None) ->
  WriteOldFile zstd name size (open_writer level plain buf file pos)
  = if String.eqb file name
    then (open_writer level
            (plain ++ flush_bytes buf
                   ++ (if pos =? 0 then [] else op_bytes DeltaOpSeek 0 [])
                   ++ op_bytes DeltaOpCopy size [])
            [] file (uint64 size), None)
    else (open_writer level
            (plain ++ flush_bytes buf
                   ++ op_bytes DeltaOpOpen (uint64 (len (bytes_of_string name)))
                               (bytes_of_string name)
                   ++ op_bytes DeltaOpCopy size [])
            [] name (uint64 size), None).
Proof.
  intros Hw. unfold WriteOldFile, andThen.
  rewrite SetCurrentFile_open by assumption.
  destruct (String.eqb file name).
  - rewrite Seek_open by assumption.
    destruct (Z.eqb_spec pos 0) as [-> | Hne].
    + rewrite CopyFile_open by assumption. reflexivity.
    + rewrite CopyFile_open by assumption.
      rewrite flush_bytes_nil. cbn [app]. now rewrite <- !app_assoc.
  - rewrite Seek_open by assumption. rewrite Z.eqb_refl.
    rewrite CopyFile_open by assumption.
    rewrite flush_bytes_nil. cbn [app]. now rewrite <- !app_assoc.
Qed.

Lemma WriteOldFile_wire_witness :
  WriteOldFile zstd_stored "b" 11 (open_writer 3 [] [65] "a" 4)
  = (open_writer 3 [0; 1; 65; 1; 1; 98; 2; 11] [] "b" 11, None).
Proof.
  rewrite (WriteOldFile_wire zstd_stored "b" 11 3 [] [65] "a" 4).
  - reflexivity.
  - reflexivity.
Defined.

(** X14. [SeekForward] is never elided: it writes Seek(pos + delta),
    modulo 2^64, also when delta is 0, where [Seek] to the tracked
    position writes nothing. *)
Theorem SeekForward_always_writes
        (zstd : codec) (delta : Z)
        (level : Z) (plain buf : list byte) (file : string) (pos : Z) :
  (forall plain p, zWrite_err zstd plain p = None) ->
  0 <= pos < 2 ^ 64 ->
  let d := open_writer level plain buf file pos in
  SeekForward zstd delta d
  = (open_writer level
       (plain ++ flush_bytes buf
              ++ op_bytes DeltaOpSeek ((pos + delta) mod 2 ^ 64) [])
       [] file ((pos + delta) mod 2 ^ 64), None)
  /\ SeekForward zstd 0 d
     = (open_writer level
          (plain ++ flush_bytes buf ++ op_bytes DeltaOpSeek pos [])
          [] file pos, None)
  /\ Seek zstd pos d = (d, None).
Proof.
  intros Hw Hpos d. subst d. split; [|split].
  - now rewrite SeekForward_open.
  - rewrite SeekForward_open by assumption.
    rewrite Z.add_0_r. now rewrite uint64_small by assumption.
  - rewrite Seek_open by assumption. now rewrite Z.eqb_refl.
Qed.

Lemma SeekForward_always_writes_witness :
  SeekForward zstd_stored 0 (open_writer 3 [] [] "a" 7)
  = (open_writer 3 [4; 7] [] "a" 7, None).
Proof.
  destruct (SeekForward_always_writes zstd_stored 0 3 [] [] "a" 7)
    as (_ & H & _).
  - reflexivity.
  - lia.
  - exact H.
Defined.

(** ** The writer after Close *)

Lemma writeOp_closed (zstd : codec) (op size : Z) (data : option (list byte))
      (d : deltaWriter) :
  writer d = None -> writeOp zstd op size data d = (d, Some PanicNilDeref).
Proof.
  intros H. unfold writeOp, andThen, writer_Write. now rewrite H.
Qed.

Lemma FlushBuffer_closed (zstd : codec) (d : deltaWriter) :
  writer d = None ->
  writer (fst (FlushBuffer zstd d)) = None
  /\ (snd (FlushBuffer zstd d) = None
      \/ snd (FlushBuffer zstd d) = Some PanicNilDeref).
Proof.
  intros H. unfold FlushBuffer.
  destruct (len (buffer d) =? 0).
  - cbn. auto.
  - rewrite writeOp_closed by assumption. cbn. auto.
Qed.

(** X15. Once the writer is closed its encoder is nil.  A
    [WriteContent] that stays below the chunk threshold still returns
    nil and only grows the buffer; every call that has to write an
    operation (CopyFile, WriteAddContent, SeekForward, a Seek to another
    position, a SetCurrentFile of another name, a FlushBuffer of a
    non-empty buffer) ends in the nil-pointer panic and writes nothing. *)
Theorem closed_writer_calls
        (zstd : codec) (d : deltaWriter)
        (data : list byte) (size pos : Z) (name : string) :
  writer d = None ->
  (len (buffer d ++ data) < deltaDataChunkSize ->
   WriteContent zstd data d = (set_buffer d (buffer d ++ data), None))
  /\ snd (CopyFile zstd size d) = Some PanicNilDeref
  /\ snd (WriteAddContent zstd data d) = Some PanicNilDeref
  /\ snd (SeekForward zstd size d) = Some PanicNilDeref
  /\ (pos <> currentPos d -> snd (Seek zstd pos d) = Some PanicNilDeref)
  /\ (name <> currentFile d ->
      snd (SetCurrentFile zstd name d) = Some PanicNilDeref)
  /\ (buffer d <> [] -> snd (FlushBuffer zstd d) = Some PanicNilDeref).
Proof.
  intros Hclosed.
  assert (Hthen : forall (d0 : deltaWriter) (op sz : Z)
                         (dat : deltaWriter -> option (list byte))
                         (k : verb),
             writer d0 = None ->
             snd ((FlushBuffer zstd ;;
                   (fun d2 =>
                      andThen (fun d3 => writeOp zstd op sz (dat d3) d3) k d2)
                  )%verb d0)
             = Some PanicNilDeref).
  { intros d0 op sz dat k H0. unfold andThen at 1.
    destruct (FlushBuffer_closed zstd d0 H0) as [Hw He].
    destruct (FlushBuffer zstd d0) as [d1 e1]. cbn [fst snd] in *.
    destruct He as [-> | ->]; [|reflexivity].
    unfold andThen. now rewrite writeOp_closed. }
  split; [|split; [|split; [|split; [|split; [|split]]]]].
  - intros Hlt. unfold WriteContent. cbn [buffer set_buffer].
    now replace (deltaDataChunkSize <=? len (buffer d ++ data)) with false
      by (symmetry; apply Z.leb_gt; lia).
  - exact (Hthen d DeltaOpCopy size (fun _ => None) _ Hclosed).
  - exact (Hthen d DeltaOpAddData (uint64 (len data)) (fun _ => Some data) _
                 Hclosed).
  - unfold SeekForward, andThen.
    set (d1 := set_currentPos d (uint64 (currentPos d + size))).
    assert (H1 : writer d1 = None) by exact Hclosed.
    destruct (FlushBuffer_closed zstd d1 H1) as [Hw He].
    destruct (FlushBuffer zstd d1) as [d2 e2]. cbn [fst snd] in *.
    destruct He as [-> | ->]; [|reflexivity].
    now rewrite writeOp_closed.
  - intros Hpos. unfold Seek.
    replace (currentPos d =? pos) with false
      by (symmetry; apply Z.eqb_neq; congruence).
    exact (Hthen d DeltaOpSeek pos (fun _ => None) _ Hclosed).
  - intros Hname. unfold SetCurrentFile.
    replace (String.eqb (currentFile d) name) with false
      by (symmetry; apply String.eqb_neq; congruence).
    cbn [negb].
    exact (Hthen d DeltaOpOpen (uint64 (len (bytes_of_string name)))
                 (fun _ => Some (bytes_of_string name)) _ Hclosed).
  - intros Hbuf. unfold FlushBuffer.
    replace (len (buffer d) =? 0) with false.
    + now rewrite writeOp_closed.
    + symmetry. apply Z.eqb_neq. intros H0. now apply len_nil_iff in H0.
Qed.

Lemma closed_writer_calls_witness :
  WriteContent zstd_stored [65] (mkDeltaWriter None [] "a" 6)
  = (mkDeltaWriter None [65] "a" 6, None)
  /\ snd (CopyFile zstd_stored 5 (mkDeltaWriter None [] "a" 6))
     = Some PanicNilDeref.
Proof.
  destruct (closed_writer_calls zstd_stored (mkDeltaWriter None [] "a" 6)
              [65] 5 0 "b") as (Hw & Hc & _).
  - reflexivity.
  - split; [|exact Hc]. apply Hw. reflexivity.
Defined.

(** ** Descriptors held by the applier *)

Lemma remove_head_fresh (fd : nat) (l : list nat) :
  ~ In fd l -> remove Nat.eq_dec fd (fd :: l) = l.
Proof.
  intros Hn. cbn. destruct (Nat.eq_dec fd fd) as [_ | Hne]; [|congruence].
  now apply notin_remove.
Qed.

Lemma fresh_not_open (p0 : process) (fd : nat) :
  fds_fresh p0 -> (nextfd p0 <= fd)%nat -> ~ In fd (openfds p0).
Proof.
  intros Hfresh Hle Hin. unfold fds_fresh in Hfresh.
  rewrite Forall_forall in Hfresh. specialize (Hfresh fd Hin). lia.
Qed.

(** A pass either keeps the process and the descriptor of the current
    file, or is an Open: the current file is closed and [os.Open] gives
    the new one. *)
Lemma applyStep_handles (fs : filesystem) (extractedDir : string)
      (st : applyState) :
  (a_proc (step_state (applyStep fs extractedDir st)) = a_proc st
   /\ option_map f_fd (a_currentFile (step_state (applyStep fs extractedDir st)))
      = option_map f_fd (a_currentFile st))
  \/ (exists name res,
        os_Open fs (extractedDir ++ "/" ++ name)%string (proc_after_close st)
        = (a_proc (step_state (applyStep fs extractedDir st)), res)
        /\ a_currentFile (step_state (applyStep fs extractedDir st))
           = opened_file res).
Proof.
  unfold applyStep;
    repeat match goal with
           | |- context [match ?x with _ => _ end] => destruct x eqn:?
           end;
    cbn [step_state a_r a_currentFile a_dst a_proc];
    try (left; split; [reflexivity|];
         repeat match goal with
                | H : a_currentFile st = _ |- _ => rewrite H
                end;
         cbn [option_map f_fd File_advance];
         first [ reflexivity
               | erewrite File_ReadFull_fd by eassumption; reflexivity
               | erewrite File_Seek_fd by eassumption; reflexivity ]);
    right;
    match goal with
    | H : os_Open fs (_ ++ "/" ++ ?name)%string _ = (?p, ?res) |- _ =>
        exists name, res; split; [|reflexivity];
        unfold proc_after_close;
        repeat match goal with
               | H' : a_currentFile st = _ |- _ => rewrite H'
               end;
        subst; exact H
    end.
Qed.

Lemma applyStep_one_handle (fs : filesystem) (extractedDir : string)
      (p0 : process) (st : applyState) :
  fds_fresh p0 ->
  one_handle p0 st ->
  one_handle p0 (step_state (applyStep fs extractedDir st)).
Proof.
  intros Hfresh [Hnext Hcur].
  destruct (applyStep_handles fs extractedDir st)
    as [[Hproc Hfd] | (name & res & Hopen & Hfile)];
    unfold one_handle.
  - rewrite Hproc. split; [assumption|].
    destruct (a_currentFile (step_state (applyStep fs extractedDir st)))
      as [f'|], (a_currentFile st) as [f|]; cbn in Hfd; try discriminate.
    + inversion Hfd as [Hf]. now rewrite Hf.
    + assumption.
  - rewrite Hfile.
    assert (Hclosed : openfds (proc_after_close st) = openfds p0
                      /\ nextfd (proc_after_close st) = nextfd (a_proc st)).
    { unfold proc_after_close.
      destruct (a_currentFile st) as [f|]; [|auto].
      destruct Hcur as [Hfd Hfds]. cbn. rewrite Hfds. split; [|reflexivity].
      apply remove_head_fresh. now apply fresh_not_open. }
    destruct Hclosed as [Ho Hn]. revert Hopen Ho Hn.
    generalize (proc_after_close st) as pc.
    generalize (a_proc (step_state (applyStep fs extractedDir st))) as p2.
    intros p2 pc Hopen Ho Hn.
    unfold os_Open in Hopen.
    destruct (fs (extractedDir ++ "/" ++ name)%string) as [data|];
      inversion Hopen; subst;
      cbn [opened_file nextfd openfds trace log f_fd];
      rewrite ?Ho, ?Hn; (split; [lia | auto]).
Qed.

(** X16. ApplyDelta never closes a descriptor that was open before the
    call, and when it returns (with or without error, whatever the
    stream) at most one descriptor it opened is still open: each Open
    closes the file of the previous one first. *)
Theorem ApplyDelta_one_handle
        (zstd : codec) (fs : filesystem) (extractedDir : string)
        (delta : reader) (dst : Writer) (proc : process) :
  fds_fresh proc ->
  exists extra,
    openfds (res_proc (ApplyDelta zstd fs extractedDir delta dst proc))
    = extra ++ openfds proc
    /\ (List.length extra <= 1)%nat
    /\ Forall (fun fd => (nextfd proc <= fd)%nat) extra.
Proof.
  intros Hfresh. unfold ApplyDelta.
  destruct (ReadFull delta (len deltaHeader)) as [err | [hdr delta1]];
    [exists []; cbn; auto|].
  destruct (bytes_Equal hdr deltaHeader); cbn [negb];
    [|exists []; cbn; auto].
  destruct (zNewReader zstd delta1) as [err | r]; [exists []; cbn; auto|].
  pose proof (applyLoop_run_invariant fs extractedDir (one_handle proc)
                (fun st => applyStep_one_handle fs extractedDir proc st Hfresh)
                (mkApply r None dst (log EvZstdNewReader proc))) as Hinv.
  destruct (applyLoop_run fs extractedDir _) as [st err].
  cbn [res_proc log openfds maybeClose File_Close fst].
  destruct Hinv as [_ Hcur]; [split; cbn; auto|].
  cbn [fst] in Hcur.
  destruct (a_currentFile st) as [f|].
  - destruct Hcur as [Hfd Hfds]. exists [f_fd f]. rewrite Hfds. cbn.
    repeat split; auto.
  - exists []. cbn. auto.
Qed.

Lemma ApplyDelta_one_handle_witness :
  exists extra,
    openfds (res_proc (ApplyDelta zstd_stored (tree_fs example_tree) "/srv/old"
                         (mkReader (deltaHeader
                                    ++ op_bytes DeltaOpOpen 5 (bytes_of_string "a.txt")
                                    ++ op_bytes DeltaOpOpen 5 (bytes_of_string "a.txt"))
                                   None)
                         sink process0))
    = extra ++ openfds process0
    /\ (List.length extra <= 1)%nat
    /\ Forall (fun fd => (nextfd process0 <= fd)%nat) extra.
Proof.
  apply (ApplyDelta_one_handle zstd_stored (tree_fs example_tree) "/srv/old").
  constructor.
Defined.

(** X17. When an Open names a file that cannot be opened, the file of
    the previous Open has been closed before the attempt: ApplyDelta
    returns the open error with no descriptor of its own left open. *)
Theorem failed_Open_leaves_nothing_open
        (zstd : codec) (fs : filesystem) (extractedDir : string)
        (frame : list byte) (derr : option error)
        (name1 name2 : string) (data : list byte) (rest : list byte)
        (te : option error) (dst : Writer) (proc : process) :
  zNewReader zstd (mkReader frame derr)
  = inr (mkReader (op_bytes DeltaOpOpen (len (bytes_of_string name1))
                            (bytes_of_string name1)
                   ++ op_bytes DeltaOpOpen (len (bytes_of_string name2))
                               (bytes_of_string name2)
                   ++ rest) te) ->
  fs (extractedDir ++ "/" ++ name1)%string = Some data ->
  fs (extractedDir ++ "/" ++ name2)%string = None ->
  len (bytes_of_string name1) <= maxAlloc ->
  len (bytes_of_string name2) <= maxAlloc ->
  ~ In (nextfd proc) (openfds proc) ->
  let res := ApplyDelta zstd fs extractedDir
                        (mkReader (deltaHeader ++ frame) derr) dst proc in
  res_err res = Some (ErrOpen (extractedDir ++ "/" ++ name2))
  /\ openfds (res_proc res) = openfds proc
  /\ trace (res_proc res)
     = trace proc ++ [EvZstdNewReader;
                      EvOpen (extractedDir ++ "/" ++ name1);
                      EvClose (nextfd proc);
                      EvOpen (extractedDir ++ "/" ++ name2);
                      EvZstdClose]
  /\ res_dst res = dst.
Proof.
  intros Hz Hfs1 Hfs2 Hn1 Hn2 Hfresh res. subst res.
  rewrite (ApplyDelta_frame _ _ _ _ _ _ _ _ Hz).
  erewrite applyLoop_run_Continue.
  2:{ rewrite step_Open by assumption.
      rewrite string_of_bytes_of_string. unfold os_Open. rewrite Hfs1.
      reflexivity. }
  erewrite applyLoop_run_Return.
  2:{ rewrite step_Open by assumption.
      rewrite string_of_bytes_of_string. unfold os_Open. rewrite Hfs2.
      reflexivity. }
  cbn -[remove]. rewrite remove_head_fresh by assumption.
  rewrite <- !app_assoc. cbn [app]. auto.
Qed.

Lemma failed_Open_leaves_nothing_open_witness :
  let res := ApplyDelta zstd_stored (tree_fs example_tree) "/srv/old"
               (mkReader (deltaHeader
                          ++ op_bytes DeltaOpOpen 5 (bytes_of_string "a.txt")
                          ++ op_bytes DeltaOpOpen 5 (bytes_of_string "b.txt")
                          ++ []) None)
               sink process0 in
  res_err res = Some (ErrOpen "/srv/old/b.txt")
  /\ openfds (res_proc res) = [].
Proof.
  destruct (failed_Open_leaves_nothing_open zstd_stored (tree_fs example_tree)
              "/srv/old"
              (op_bytes DeltaOpOpen 5 (bytes_of_string "a.txt")
               ++ op_bytes DeltaOpOpen 5 (bytes_of_string "b.txt") ++ [])
              None "a.txt" "b.txt" (bytes_of_string "hello world") [] None
              sink process0) as (He & Ho & _).
  - reflexivity.
  - reflexivity.
  - reflexivity.
  - vm_compute. discriminate.
  - vm_compute. discriminate.
  - cbn. tauto.
  - split; [exact He | exact Ho].
Defined.

(** ** What ApplyDelta calls *)

Lemma os_Open_trace_eq (fs : filesystem) (path : string) (p : process) :
  trace (fst (os_Open fs path p)) = trace p ++ [EvOpen path].
Proof. unfold os_Open. now destruct (fs path). Qed.

Lemma applyStep_calls (fs : filesystem) (extractedDir : string)
      (p0 : process) (allowed : event -> Prop) (st : applyState) :
  (forall ev, call_of_ApplyDelta extractedDir p0 ev -> allowed ev) ->
  one_handle p0 st ->
  (forall ev, In ev (trace (a_proc st)) -> allowed ev) ->
  forall ev,
    In ev (trace (a_proc (step_state (applyStep fs extractedDir st)))) ->
    allowed ev.
Proof.
  intros Hallowed [_ Hcur] Hinv ev.
  destruct (applyStep_handles fs extractedDir st)
    as [[Hproc _] | (name & res & Hopen & _)].
  - rewrite Hproc. apply Hinv.
  - replace (a_proc (step_state (applyStep fs extractedDir st)))
      with (fst (os_Open fs (extractedDir ++ "/" ++ name)%string
                         (proc_after_close st)))
      by (now rewrite Hopen).
    rewrite os_Open_trace_eq. intros Hin.
    apply in_app_or in Hin. destruct Hin as [Hin | [<- | []]].
    + unfold proc_after_close in Hin.
      destruct (a_currentFile st) as [f|]; [|now apply Hinv].
      cbn in Hin. apply in_app_or in Hin.
      destruct Hin as [Hin | [<- | []]]; [now apply Hinv|].
      apply Hallowed. cbn. tauto.
    + apply Hallowed. cbn. now exists name.
Qed.

(** X19. Whatever the stream holds, the calls ApplyDelta makes are the
    two on the decompressor, os.Open on paths that are extractedDir, a
    slash and a name taken from the stream, and Close on descriptors it
    opened itself: it opens no path of another form and closes no
    descriptor that was open before the call. *)
Theorem ApplyDelta_calls
        (zstd : codec) (fs : filesystem) (extractedDir : string)
        (delta : reader) (dst : Writer) (proc : process) (ev : event) :
  fds_fresh proc ->
  In ev (trace (res_proc (ApplyDelta zstd fs extractedDir delta dst proc))) ->
  In ev (trace proc) \/ call_of_ApplyDelta extractedDir proc ev.
Proof.
  intros Hfresh. unfold ApplyDelta.
  destruct (ReadFull delta (len deltaHeader)) as [err | [hdr delta1]];
    [cbn; auto|].
  destruct (bytes_Equal hdr deltaHeader); cbn [negb]; [|cbn; auto].
  destruct (zNewReader zstd delta1) as [err | r].
  { cbn. intros Hin. apply in_app_or in Hin.
    destruct Hin as [Hin | [<- | []]]; cbn; auto. }
  pose proof (applyLoop_run_invariant fs extractedDir
    (fun st => one_handle proc st
               /\ forall ev, In ev (trace (a_proc st)) ->
                             In ev (trace proc)
                             \/ call_of_ApplyDelta extractedDir proc ev)) as Hinv.
  specialize (Hinv
    (fun st H =>
       conj (applyStep_one_handle fs extractedDir proc st Hfresh (proj1 H))
            (applyStep_calls fs extractedDir proc _ st
               (fun ev Hev => or_intror Hev) (proj1 H) (proj2 H)))
    (mkApply r None dst (log EvZstdNewReader proc))).
  destruct (applyLoop_run fs extractedDir _) as [st err].
  cbn [res_proc log trace maybeClose File_Close fst].
  destruct Hinv as [_ Htrace].
  { split; [split; cbn; auto|]. cbn. intros ev0 Hin.
    apply in_app_or in Hin. destruct Hin as [Hin | [<- | []]]; cbn; auto. }
  cbn [fst] in Htrace. intros Hin. apply in_app_or in Hin.
  destruct Hin as [Hin | [<- | []]]; [now apply Htrace | cbn; auto].
Qed.

Lemma ApplyDelta_calls_witness :
  In (EvOpen "/srv/old/a.txt") (trace process0)
  \/ call_of_ApplyDelta "/srv/old" process0 (EvOpen "/srv/old/a.txt").
Proof.
  apply (ApplyDelta_calls zstd_stored (tree_fs example_tree) "/srv/old"
           (mkReader (deltaHeader
                      ++ op_bytes DeltaOpOpen 5 (bytes_of_string "a.txt"))
                     None)
           sink process0).
  - constructor.
  - vm_compute. tauto.
Defined.

(** ** Seeking past the end *)

(** X20. A Seek to an offset beyond the end of the current file is
    accepted; it is the next Copy that fails, with io.EOF and nothing
    written. *)
Theorem Seek_past_end_then_Copy
        (fs : filesystem) (extractedDir : string)
        (pos n : Z) (rest : list byte) (te : option error)
        (f : File) (dst : Writer) (proc : process) :
  len (f_data f) <= pos < 2 ^ 63 ->
  0 < n < 2 ^ 63 ->
  wroom dst = None ->
  let st := mkApply
              (mkReader (op_bytes DeltaOpSeek pos []
                         ++ op_bytes DeltaOpCopy n [] ++ rest) te)
              (Some f) dst proc in
  applyStep fs extractedDir st
  = Continue (mkApply (mkReader (op_bytes DeltaOpCopy n [] ++ rest) te)
                      (Some (mkFile (f_fd f) (f_data f) pos)) dst proc)
  /\ snd (applyLoop_run fs extractedDir st) = Some EOF
  /\ wbytes (a_dst (fst (applyLoop_run fs extractedDir st))) = wbytes dst.
Proof.
  intros Hpos Hn Hroom st. subst st.
  pose proof (len_nonneg (f_data f)) as H0.
  assert (Hseek :
    applyStep fs extractedDir
      (mkApply (mkReader (op_bytes DeltaOpSeek pos []
                          ++ op_bytes DeltaOpCopy n [] ++ rest) te)
               (Some f) dst proc)
    = Continue (mkApply (mkReader (op_bytes DeltaOpCopy n [] ++ rest) te)
                        (Some (mkFile (f_fd f) (f_data f) pos)) dst proc)).
  { rewrite step_Seek by lia. rewrite int64_small by lia. unfold File_Seek.
    now replace (pos <? 0) with false by (symmetry; apply Z.ltb_ge; lia). }
  split; [exact Hseek|].
  rewrite (applyLoop_run_Continue _ _ _ _ Hseek).
  erewrite applyLoop_run_Return.
  2:{ rewrite step_Copy by lia. rewrite int64_small by lia.
      rewrite CopyN_short; [reflexivity | assumption |].
      unfold File_reader. cbn [rbytes f_pos f_data].
      rewrite skipn_all2; [cbn; lia|].
      unfold len in Hpos. lia. }
  cbn -[skipn]. split; [reflexivity|].
  rewrite skipn_all2; [apply app_nil_r|].
  unfold len in Hpos. lia.
Qed.

Lemma Seek_past_end_then_Copy_witness :
  let st := mkApply (mkReader (op_bytes DeltaOpSeek 5 []
                               ++ op_bytes DeltaOpCopy 1 [] ++ []) None)
                    (Some (mkFile 3 [10; 250] 0)) sink process0 in
  snd (applyLoop_run (fun _ => None) "/old" st) = Some EOF.
Proof.
  destruct (Seek_past_end_then_Copy (fun _ => None) "/old" 5 1 [] None
              (mkFile 3 [10; 250] 0) sink process0) as (_ & H & _).
  - vm_compute. split; [discriminate | reflexivity].
  - lia.
  - reflexivity.
  - exact H.
Defined.

(** ** Termination of the loop *)

(** X18. The loop of ApplyDelta returns on every decoded stream, every
    tree and every state: a pass that goes round again has consumed at
    least its tag byte, so any number of passes above the number of
    decoded bytes left is enough, and gives the same result. *)
Theorem applyLoop_terminates
        (fs : filesystem) (extractedDir : string)
        (st : applyState) (fuel : nat) :
  (List.length (rbytes (a_r st)) < fuel)%nat ->
  applyLoop fs extractedDir fuel st = Some (applyLoop_run fs extractedDir st).
Proof.
  intros Hfuel.
  apply applyLoop_fuel with (f1 := S (List.length (rbytes (a_r st))));
    [apply applyLoop_run_total | lia].
Qed.

Lemma applyLoop_terminates_witness :
  applyLoop (fun _ => None) "/old" 100
            (mkApply (mkReader [0; 1; 65; 0; 1; 66] None) None sink process0)
  = Some (mkApply (mkReader [] None) None (mkWriter [65; 66] None) process0,
          None).
Proof.
  rewrite (applyLoop_terminates (fun _ => None) "/old"
             (mkApply (mkReader [0; 1; 65; 0; 1; 66] None) None sink process0)
             100).
  - reflexivity.
  - cbn. lia.
Defined.

(** ** The current file at return *)

Lemma ApplyDelta_keeps_current_open_witness :
  In 3%nat
     (openfds (res_proc (ApplyDelta zstd_stored (tree_fs example_tree) "/srv/old"
                           (mkReader (deltaHeader
                                      ++ op_bytes DeltaOpOpen 5
                                                  (bytes_of_string "a.txt")
                                      ++ op_bytes DeltaOpCopy 5 [])
                                     None)
                           sink process0))).
Proof.
  apply (ApplyDelta_keeps_current_open zstd_stored (tree_fs example_tree)
           "/srv/old"
           (mkReader (deltaHeader
                      ++ op_bytes DeltaOpOpen 5 (bytes_of_string "a.txt")
                      ++ op_bytes DeltaOpCopy 5 [])
                     None)
           sink process0
           (mkReader (op_bytes DeltaOpOpen 5 (bytes_of_string "a.txt")
                      ++ op_bytes DeltaOpCopy 5 []) None)
           (mkApply (mkReader [] None)
                    (Some (mkFile 3 (bytes_of_string "hello world") 5))
                    (mkWriter (bytes_of_string "hello") None)
                    (mkProcess 4 [3%nat]
                               [EvZstdNewReader; EvOpen "/srv/old/a.txt"]))
           None
           (mkFile 3 (bytes_of_string "hello world") 5)).
  - reflexivity.
  - reflexivity.
  - vm_compute. reflexivity.
  - reflexivity.
Defined.
